(** * Poem Studio: the request handlers of [src/actions/index.ts]

    A shallow embedding of the seven actions exported by [server], of the two
    tables they work on ([PoemCollections] and [Poems]) and of the input
    schemas that guard them, followed by the properties of the ownership
    checks, of the partial updates and of the authorization gate. *)

From Stdlib Require Import List String Ascii Bool ZArith Arith Lia.
Import ListNotations.
Local Open Scope string_scope.
Local Open Scope list_scope.

Set Implicit Arguments.

(** ** Tables *)

(** A [column.date] value, as milliseconds since the epoch. *)
Definition Date := Z.

(** [PoemCollections]: the optional text columns hold [None] for SQL NULL. *)
Module PoemCollections.
Record row := mk {
  id : string;
  userId : string;
  name : string;
  description : option string;
  icon : option string;
  isDefault : bool;
  createdAt : Date;
  updatedAt : Date
}.
End PoemCollections.

(** [Poems]: [collectionId] is the optional reference to a collection. *)
Module Poems.
Record row := mk {
  id : string;
  collectionId : option string;
  userId : string;
  title : option string;
  form : option string;
  style : option string;
  language : option string;
  prompt : option string;
  body : string;
  notes : option string;
  isFavorite : bool;
  createdAt : Date;
  updatedAt : Date
}.
End Poems.

Inductive Table := TPoemCollections | TPoems.

(** One statement sent to the database. *)
Inductive DbOp :=
| DbSelect (t : Table)
| DbInsert (t : Table)
| DbUpdate (t : Table)
| DbDelete (t : Table).

(** ** The world a handler runs in

    The two tables, the number of calls made so far to [crypto.randomUUID]
    and to [new Date], and the statements issued to the database, oldest
    first. *)
Record World := mkWorld {
  collections : list PoemCollections.row;
  poems : list Poems.row;
  uuidCalls : nat;
  dateCalls : nat;
  trace : list DbOp
}.

(** What the platform answers: the n-th identifier drawn and the n-th clock
    reading. *)
Record Runtime := mkRuntime {
  uuidAt : nat -> string;
  timeAt : nat -> Date
}.

(** ** Errors and the action monad *)

Inductive ErrorCode := UNAUTHORIZED | NOT_FOUND | BAD_REQUEST.

(** What a handler can throw: an [ActionError], the input error raised by the
    schema, or a failure of the storage layer (here: a primary key that is
    already taken, or a foreign key that names no row). *)
Inductive Failure :=
| ActionError (code : ErrorCode) (message : string)
| ActionInputError
| StorageError.

Inductive Outcome (A : Type) :=
| Ok (a : A)
| Thrown (e : Failure).
Arguments Ok {A} a.
Arguments Thrown {A} e.

Definition Action (A : Type) : Type := Runtime -> World -> Outcome A * World.

Definition ret {A} (a : A) : Action A := fun _ w => (Ok a, w).

Definition throw {A} (e : Failure) : Action A := fun _ w => (Thrown e, w).

Definition bind {A B} (m : Action A) (k : A -> Action B) : Action B :=
  fun rt w =>
    match m rt w with
    | (Ok a, w') => k a rt w'
    | (Thrown e, w') => (Thrown e, w')
    end.

Declare Scope action_scope.
Delimit Scope action_scope with action.
Notation "x <- m ;; k" := (bind m (fun x => k))
  (at level 100, m at next level, right associativity) : action_scope.
Notation "m ;;; k" := (bind m (fun _ => k))
  (at level 100, right associativity) : action_scope.
Local Open Scope action_scope.

(** ** Platform calls *)

(** [crypto.randomUUID()] *)
Definition randomUUID : Action string :=
  fun rt w =>
    (Ok (uuidAt rt (uuidCalls w)),
     mkWorld (collections w) (poems w) (S (uuidCalls w)) (dateCalls w) (trace w)).

(** [new Date()] *)
Definition newDate : Action Date :=
  fun rt w =>
    (Ok (timeAt rt (dateCalls w)),
     mkWorld (collections w) (poems w) (uuidCalls w) (S (dateCalls w)) (trace w)).

(** ** Database statements *)

Definition logged (op : DbOp) (w : World) : World :=
  mkWorld (collections w) (poems w) (uuidCalls w) (dateCalls w) (trace w ++ [op]).

Definition withCollections (cs : list PoemCollections.row) (w : World) : World :=
  mkWorld cs (poems w) (uuidCalls w) (dateCalls w) (trace w).

Definition withPoems (ps : list Poems.row) (w : World) : World :=
  mkWorld (collections w) ps (uuidCalls w) (dateCalls w) (trace w).

(** [db.select().from(PoemCollections).where(p)] *)
Definition selectCollections (p : PoemCollections.row -> bool)
  : Action (list PoemCollections.row) :=
  fun _ w => (Ok (filter p (collections w)), logged (DbSelect TPoemCollections) w).

(** [db.select().from(Poems).where(p)] *)
Definition selectPoems (p : Poems.row -> bool) : Action (list Poems.row) :=
  fun _ w => (Ok (filter p (poems w)), logged (DbSelect TPoems) w).

(** [db.insert(PoemCollections).values(r).returning()]: [id] is the primary
    key, a value already present makes the statement fail. The row handed
    back is the row given; the driver cuts a text at its first NUL character
    when it reads it back, so that this is exact for texts without NUL (see
    [nulFree]). *)
Definition insertCollection (r : PoemCollections.row)
  : Action (list PoemCollections.row) :=
  fun _ w =>
    let w1 := logged (DbInsert TPoemCollections) w in
    if existsb (fun c => PoemCollections.id c =? PoemCollections.id r) (collections w)
    then (Thrown StorageError, w1)
    else (Ok [r], withCollections (collections w ++ [r]) w1).

(** The reference declared on [Poems.collectionId]: NULL, or the [id] of a
    stored collection, whoever owns it. *)
Definition referenceHolds (collectionId : option string) (w : World) : bool :=
  match collectionId with
  | None => true
  | Some c => existsb (fun col => PoemCollections.id col =? c) (collections w)
  end.

(** [db.insert(Poems).values(r).returning()]: the statement fails on an [id]
    already present, and on a [collectionId] that is the [id] of no
    collection (the foreign key); it then stores nothing. *)
Definition insertPoem (r : Poems.row) : Action (list Poems.row) :=
  fun _ w =>
    let w1 := logged (DbInsert TPoems) w in
    if existsb (fun p => Poems.id p =? Poems.id r) (poems w)
    then (Thrown StorageError, w1)
    else if referenceHolds (Poems.collectionId r) w
         then (Ok [r], withPoems (poems w ++ [r]) w1)
         else (Thrown StorageError, w1).

(** [db.update(PoemCollections).set(f).where(p).returning()] *)
Definition updateCollections (f : PoemCollections.row -> PoemCollections.row)
    (p : PoemCollections.row -> bool) : Action (list PoemCollections.row) :=
  fun _ w =>
    (Ok (map f (filter p (collections w))),
     withCollections (map (fun c => if p c then f c else c) (collections w))
       (logged (DbUpdate TPoemCollections) w)).

(** [db.update(Poems).set(f).where(p).returning()]. The foreign key is not
    checked here: the one caller, updatePoem, leaves [collectionId] as it is
    or sets it to an id that [getOwnedCollection] has just found. *)
Definition updatePoems (f : Poems.row -> Poems.row) (p : Poems.row -> bool)
  : Action (list Poems.row) :=
  fun _ w =>
    (Ok (map f (filter p (poems w))),
     withPoems (map (fun r => if p r then f r else r) (poems w))
       (logged (DbUpdate TPoems) w)).

(** [db.delete(Poems).where(p)]; the answer is [rowsAffected]. *)
Definition deletePoems (p : Poems.row -> bool) : Action nat :=
  fun _ w =>
    (Ok (List.length (filter p (poems w))),
     withPoems (filter (fun r => negb (p r)) (poems w))
       (logged (DbDelete TPoems) w)).

(** ** Request context *)

Module User.
Record t := mk { id : string }.
End User.
Record Locals := mkLocals { user : option User.t }.
Record ActionAPIContext := mkContext { locals : option Locals }.

(** [context.locals?.user] *)
Definition localsUser (context : ActionAPIContext) : option User.t :=
  match locals context with
  | Some l => user l
  | None => None
  end.

Definition unauthorized : Failure :=
  ActionError UNAUTHORIZED "You must be signed in to perform this action.".

(** The two NOT_FOUND errors of the handlers. *)
Definition collectionNotFound : Failure :=
  ActionError NOT_FOUND "Collection not found.".

Definition poemNotFound : Failure := ActionError NOT_FOUND "Poem not found.".

(** [requireUser]: the user of the request, thrown out when there is none. *)
Definition requireUser (context : ActionAPIContext) : Action User.t :=
  match localsUser context with
  | None => throw unauthorized
  | Some u => ret u
  end.

(** [getOwnedCollection]: the first row with this id and this owner. *)
Definition getOwnedCollection (collectionId userId : string)
  : Action PoemCollections.row :=
  rows <- selectCollections
            (fun c => (PoemCollections.id c =? collectionId)
                      && (PoemCollections.userId c =? userId)) ;;
  match rows with
  | [] => throw collectionNotFound
  | collection :: _ => ret collection
  end.

(** ** Request bodies and the schema combinators

    A request body is a JSON value, or [JsUndefined] when none was sent. *)
Local Unset Elimination Schemes.
Inductive JsValue :=
| JsUndefined
| JsNull
| JsBool (b : bool)
| JsNumber (n : Z)
| JsString (s : string)
| JsArray (items : list JsValue)
| JsObject (fields : list (string * JsValue)).
Local Set Elimination Schemes.

Fixpoint lookupField (k : string) (fields : list (string * JsValue)) : JsValue :=
  match fields with
  | [] => JsUndefined
  | (k', v) :: rest => if k' =? k then v else lookupField k rest
  end.

(** A schema parses a value, [None] standing for a validation issue. *)
Definition Schema (A : Type) : Type := JsValue -> option A.

Module z.
(** [z.string()] *)
Definition string : Schema String.string :=
  fun v => match v with JsString s => Some s | _ => None end.

(** [z.string().min(n)] *)
Definition string_min (n : nat) : Schema String.string :=
  fun v =>
    match v with
    | JsString s => if Nat.leb n (String.length s) then Some s else None
    | _ => None
    end.

(** [z.boolean()] *)
Definition boolean : Schema bool :=
  fun v => match v with JsBool b => Some b | _ => None end.

(** [.optional()] *)
Definition optional {A} (s : Schema A) : Schema (option A) :=
  fun v =>
    match v with
    | JsUndefined => Some None
    | _ => option_map Some (s v)
    end.

(** [.default(d)] *)
Definition default {A} (s : Schema A) (d : A) : Schema A :=
  fun v =>
    match v with
    | JsUndefined => Some d
    | _ => s v
    end.

(** [z.object(shape)]: the value has to be an object; [shape] reads the
    declared keys and nothing else, so that unknown keys are dropped. *)
Definition object {A} (shape : (String.string -> JsValue) -> option A) : Schema A :=
  fun v =>
    match v with
    | JsObject fields => shape (fun k => lookupField k fields)
    | _ => None
    end.

(** [.refine(check)] *)
Definition refine {A} (s : Schema A) (check : A -> bool) : Schema A :=
  fun v =>
    match s v with
    | Some a => if check a then Some a else None
    | None => None
    end.
End z.

(** Sequencing of the keys of an object shape. *)
Notation "'key' x ':=' p 'in' k" :=
  (match p with Some x => k | None => None end)
  (at level 10, x name, p at level 100, k at level 200, only parsing).

(** [value !== undefined] *)
Definition defined {A} (o : option A) : bool :=
  match o with Some _ => true | None => false end.

(** [value ?? fallback] *)
Definition orElse {A} (o : option A) (fallback : A) : A :=
  match o with Some a => a | None => fallback end.

(** Truthiness of a string: only the empty string is falsy. *)
Definition truthy (s : string) : bool := negb (s =? "").

(** [and(...filters)] and the [eq] conditions on nullable or boolean
    columns: a NULL reference equals no identifier. *)
Definition and_ {A} (filters : list (A -> bool)) : A -> bool :=
  fun r => forallb (fun f => f r) filters.

Definition eqNullable (column : option string) (value : string) : bool :=
  match column with
  | Some c => c =? value
  | None => false
  end.

(** [defineAction({ input, handler })]: the body is parsed by the schema, and
    the handler only runs on what the schema returned. *)
Definition defineAction {I R} (input : Schema I)
    (handler : I -> ActionAPIContext -> Action R)
  : JsValue -> ActionAPIContext -> Action R :=
  fun body context =>
    match input body with
    | None => throw ActionInputError
    | Some i => handler i context
    end.

(** What a successful action hands back: [{ success: true, data }]. *)
Inductive Data :=
| DataCollection (collection : option PoemCollections.row)
| DataPoem (poem : option Poems.row)
| DataCollections (items : list PoemCollections.row) (total : nat)
| DataPoems (items : list Poems.row) (total : nat)
| NoData.

(** ** The actions of [server] *)

Module createCollection.
Record Input := mkInput {
  name : string;
  description : option string;
  icon : option string;
  isDefault : option bool
}.

Definition input : Schema Input :=
  z.object (fun get =>
    key name := z.string_min 1 (get "name") in
    key description := z.optional z.string (get "description") in
    key icon := z.optional z.string (get "icon") in
    key isDefault := z.optional z.boolean (get "isDefault") in
    Some (mkInput name description icon isDefault)).

Definition handler (input : Input) (context : ActionAPIContext) : Action Data :=
  user <- requireUser context ;;
  now <- newDate ;;
  uuid <- randomUUID ;;
  rows <- insertCollection
            (PoemCollections.mk uuid (User.id user) (name input)
               (description input) (icon input)
               (orElse (isDefault input) false) now now) ;;
  ret (DataCollection (hd_error rows)).

Definition action := defineAction input handler.
End createCollection.

Module updateCollection.
Record Input := mkInput {
  id : string;
  name : option string;
  description : option string;
  icon : option string;
  isDefault : option bool
}.

Definition atLeastOne (input : Input) : bool :=
  defined (name input) || defined (description input)
  || defined (icon input) || defined (isDefault input).

Definition input : Schema Input :=
  z.refine
    (z.object (fun get =>
       key id := z.string_min 1 (get "id") in
       key name := z.optional (z.string_min 1) (get "name") in
       key description := z.optional z.string (get "description") in
       key icon := z.optional z.string (get "icon") in
       key isDefault := z.optional z.boolean (get "isDefault") in
       Some (mkInput id name description icon isDefault)))
    atLeastOne.

(** The object given to [.set]: a key is present only when the input has
    it, [updatedAt] always. *)
Definition set (input : Input) (now : Date) (c : PoemCollections.row)
  : PoemCollections.row :=
  PoemCollections.mk
    (PoemCollections.id c)
    (PoemCollections.userId c)
    (match name input with Some v => v | None => PoemCollections.name c end)
    (match description input with Some v => Some v | None => PoemCollections.description c end)
    (match icon input with Some v => Some v | None => PoemCollections.icon c end)
    (match isDefault input with Some v => v | None => PoemCollections.isDefault c end)
    (PoemCollections.createdAt c)
    now.

Definition handler (input : Input) (context : ActionAPIContext) : Action Data :=
  user <- requireUser context ;;
  _ <- getOwnedCollection (id input) (User.id user) ;;
  now <- newDate ;;
  rows <- updateCollections (set input now)
            (fun c => PoemCollections.id c =? id input) ;;
  ret (DataCollection (hd_error rows)).

Definition action := defineAction input handler.
End updateCollection.

Module listCollections.
Definition Input := option unit.

Definition input : Schema Input :=
  z.optional (z.object (fun _ => Some tt)).

Definition handler (_input : Input) (context : ActionAPIContext) : Action Data :=
  user <- requireUser context ;;
  collections <- selectCollections
                   (fun c => PoemCollections.userId c =? User.id user) ;;
  ret (DataCollections collections (List.length collections)).

Definition action := defineAction input handler.
End listCollections.

Module createPoem.
Record Input := mkInput {
  collectionId : option string;
  title : option string;
  form : option string;
  style : option string;
  language : option string;
  prompt : option string;
  body : string;
  notes : option string;
  isFavorite : option bool
}.

Definition input : Schema Input :=
  z.object (fun get =>
    key collectionId := z.optional z.string (get "collectionId") in
    key title := z.optional z.string (get "title") in
    key form := z.optional z.string (get "form") in
    key style := z.optional z.string (get "style") in
    key language := z.optional z.string (get "language") in
    key prompt := z.optional z.string (get "prompt") in
    key body := z.string_min 1 (get "body") in
    key notes := z.optional z.string (get "notes") in
    key isFavorite := z.optional z.boolean (get "isFavorite") in
    Some (mkInput collectionId title form style language prompt body notes
            isFavorite)).

Definition handler (input : Input) (context : ActionAPIContext) : Action Data :=
  user <- requireUser context ;;
  _ <- match collectionId input with
       | Some c =>
           if truthy c
           then (_ <- getOwnedCollection c (User.id user) ;; ret tt)
           else ret tt
       | None => ret tt
       end ;;
  now <- newDate ;;
  uuid <- randomUUID ;;
  rows <- insertPoem
            (Poems.mk uuid (collectionId input) (User.id user) (title input)
               (form input) (style input) (language input) (prompt input)
               (body input) (notes input)
               (orElse (isFavorite input) false) now now) ;;
  ret (DataPoem (hd_error rows)).

Definition action := defineAction input handler.
End createPoem.

Module updatePoem.
Record Input := mkInput {
  id : string;
  collectionId : option string;
  title : option string;
  form : option string;
  style : option string;
  language : option string;
  prompt : option string;
  body : option string;
  notes : option string;
  isFavorite : option bool
}.

Definition atLeastOne (input : Input) : bool :=
  defined (collectionId input) || defined (title input)
  || defined (form input) || defined (style input)
  || defined (language input) || defined (prompt input)
  || defined (body input) || defined (notes input)
  || defined (isFavorite input).

Definition input : Schema Input :=
  z.refine
    (z.object (fun get =>
       key id := z.string_min 1 (get "id") in
       key collectionId := z.optional z.string (get "collectionId") in
       key title := z.optional z.string (get "title") in
       key form := z.optional z.string (get "form") in
       key style := z.optional z.string (get "style") in
       key language := z.optional z.string (get "language") in
       key prompt := z.optional z.string (get "prompt") in
       key body := z.optional z.string (get "body") in
       key notes := z.optional z.string (get "notes") in
       key isFavorite := z.optional z.boolean (get "isFavorite") in
       Some (mkInput id collectionId title form style language prompt body
               notes isFavorite)))
    atLeastOne.

(** The object given to [.set]. *)
Definition set (input : Input) (now : Date) (p : Poems.row) : Poems.row :=
  Poems.mk
    (Poems.id p)
    (match collectionId input with Some v => Some v | None => Poems.collectionId p end)
    (Poems.userId p)
    (match title input with Some v => Some v | None => Poems.title p end)
    (match form input with Some v => Some v | None => Poems.form p end)
    (match style input with Some v => Some v | None => Poems.style p end)
    (match language input with Some v => Some v | None => Poems.language p end)
    (match prompt input with Some v => Some v | None => Poems.prompt p end)
    (match body input with Some v => v | None => Poems.body p end)
    (match notes input with Some v => Some v | None => Poems.notes p end)
    (match isFavorite input with Some v => v | None => Poems.isFavorite p end)
    (Poems.createdAt p)
    now.

(** A validated [collectionId] is a string or [undefined], so that the
    test [!== undefined && !== null] comes down to the first half. *)
Definition handler (input : Input) (context : ActionAPIContext) : Action Data :=
  user <- requireUser context ;;
  found <- selectPoems
             (fun p => (Poems.id p =? id input)
                       && (Poems.userId p =? User.id user)) ;;
  match found with
  | [] => throw poemNotFound
  | existing :: _ =>
      _ <- match collectionId input with
           | Some c => (_ <- getOwnedCollection c (User.id user) ;; ret tt)
           | None => ret tt
           end ;;
      now <- newDate ;;
      rows <- updatePoems (set input now) (fun p => Poems.id p =? id input) ;;
      ret (DataPoem (hd_error rows))
  end.

Definition action := defineAction input handler.
End updatePoem.

Module deletePoem.
Record Input := mkInput { id : string }.

Definition input : Schema Input :=
  z.object (fun get =>
    key id := z.string_min 1 (get "id") in
    Some (mkInput id)).

Definition handler (input : Input) (context : ActionAPIContext) : Action Data :=
  user <- requireUser context ;;
  rowsAffected <- deletePoems
                    (fun p => (Poems.id p =? id input)
                              && (Poems.userId p =? User.id user)) ;;
  if Nat.eqb rowsAffected 0
  then throw poemNotFound
  else ret NoData.

Definition action := defineAction input handler.
End deletePoem.

Module listPoems.
Record Fields := mkFields {
  collectionId : option string;
  favoritesOnly : bool
}.
Definition Input := option Fields.

Definition input : Schema Input :=
  z.optional
    (z.object (fun get =>
       key collectionId := z.optional z.string (get "collectionId") in
       key favoritesOnly := z.default z.boolean false (get "favoritesOnly") in
       Some (mkFields collectionId favoritesOnly))).

Definition handler (input : Input) (context : ActionAPIContext) : Action Data :=
  user <- requireUser context ;;
  let filters := [fun p => Poems.userId p =? User.id user] in
  filters <- match input with
             | Some (mkFields (Some c) _) =>
                 if truthy c
                 then (_ <- getOwnedCollection c (User.id user) ;;
                       ret (filters ++ [fun p => eqNullable (Poems.collectionId p) c]))
                 else ret filters
             | _ => ret filters
             end ;;
  let filters := match input with
                 | Some (mkFields _ true) => filters ++ [Poems.isFavorite]
                 | _ => filters
                 end in
  poems <- selectPoems (and_ filters) ;;
  ret (DataPoems poems (List.length poems)).

Definition action := defineAction input handler.
End listPoems.

(** The operations exported by [server], by name. *)
Inductive Operation :=
| CreateCollection
| UpdateCollection
| ListCollections
| CreatePoem
| UpdatePoem
| DeletePoem
| ListPoems.

Definition server (op : Operation) : JsValue -> ActionAPIContext -> Action Data :=
  match op with
  | CreateCollection => createCollection.action
  | UpdateCollection => updateCollection.action
  | ListCollections => listCollections.action
  | CreatePoem => createPoem.action
  | UpdatePoem => updatePoem.action
  | DeletePoem => deletePoem.action
  | ListPoems => listPoems.action
  end.

(** ** Keys left out of a request body *)

Definition isUndefined (v : JsValue) : bool :=
  match v with JsUndefined => true | _ => false end.

(** [omits keys fields]: the body has none of [keys]. *)
Definition omits (keys : list string) (fields : list (string * JsValue)) : bool :=
  forallb (fun k => isUndefined (lookupField k fields)) keys.

Definition collectionKeys : list string :=
  ["name"; "description"; "icon"; "isDefault"].

Definition poemKeys : list string :=
  ["collectionId"; "title"; "form"; "style"; "language"; "prompt"; "body";
   "notes"; "isFavorite"].

(** ** Ownership, and sample data

    [owns w userId collectionId]: the collections table of [w] has a row with
    this identifier and this owner, which is what [getOwnedCollection] looks
    for. *)
Definition owns (w : World) (userId collectionId : string) : Prop :=
  exists c, In c (collections w)
            /\ PoemCollections.id c = collectionId
            /\ PoemCollections.userId c = userId.

(** [ownsPoem w userId poemId]: the same for the poems table. *)
Definition ownsPoem (w : World) (userId poemId : string) : Prop :=
  exists p, In p (poems w)
            /\ Poems.id p = poemId
            /\ Poems.userId p = userId.

(** Primary keys: no two rows of a table share their [id]. *)
Definition primaryKeys (w : World) : Prop :=
  NoDup (map PoemCollections.id (collections w))
  /\ NoDup (map Poems.id (poems w)).

Definition signedIn (u : User.t) : ActionAPIContext :=
  mkContext (Some (mkLocals (Some u))).

Definition anonymous : ActionAPIContext := mkContext (Some (mkLocals None)).

Definition alice : User.t := User.mk "alice".
Definition bob : User.t := User.mk "bob".

Definition sampleRuntime : Runtime :=
  mkRuntime (fun n => String.append "uuid-" (String (ascii_of_nat (48 + n)) ""))
            (fun n => 1000 + Z.of_nat n)%Z.

Definition emptyWorld : World := mkWorld [] [] 0 0 [].

(** The world after the calls of a scenario: each call runs in the world the
    previous one left. *)
Fixpoint after (calls : list (Action Data)) (rt : Runtime) (w : World) : World :=
  match calls with
  | [] => w
  | call :: rest => after rest rt (snd (call rt w))
  end.

(** Alice has a collection "Nature" holding one poem, Bob a collection
    "Travel". *)
Definition sampleWorld : World :=
  Eval vm_compute in
    after
      [ createCollection.action (JsObject [("name", JsString "Nature")]) (signedIn alice);
        createCollection.action (JsObject [("name", JsString "Travel")]) (signedIn bob);
        createPoem.action
          (JsObject [("body", JsString "old pond"); ("collectionId", JsString "uuid-0")])
          (signedIn alice) ]
      sampleRuntime emptyWorld.

(** [patched inject supplied previous updated]: the column holds the supplied
    value when the input has one, and what it held before otherwise. *)
Definition patched {A B} (inject : A -> B) (supplied : option A)
    (previous updated : B) : Prop :=
  match supplied with
  | Some v => updated = inject v
  | None => updated = previous
  end.

(** A value goes as it is into a required column, as [Some] into a nullable
    one. *)
Definition asIs {A} (a : A) : A := a.

(** ** Frames

    [keeps proj m]: running [m] leaves the [proj] part of the world as it
    was, whether [m] returns or throws. *)
Definition keeps {T A} (proj : World -> T) (m : Action A) : Prop :=
  forall rt w, proj (snd (m rt w)) = proj w.

(** The two tables together. *)
Definition tables (w : World) : list PoemCollections.row * list Poems.row :=
  (collections w, poems w).

(** [rowsKept ident l l']: the table [l'] is [l], or [l] with one row of a new
    identifier at its end, or [l] without some of its rows. *)
Definition rowsKept {A} (ident : A -> string) (l l' : list A) : Prop :=
  l' = l
  \/ (exists row, l' = l ++ [row] /\ ~ In (ident row) (map ident l))
  \/ (exists q, l' = filter q l).

(** [steps R m]: started in a world with the tables of [w], [m] ends,
    returning or throwing, in a world that [R] relates to [w]. *)
Definition steps {A} (R : World -> World -> Prop) (m : Action A) : Prop :=
  forall rt w0 w, tables w0 = tables w -> R w (snd (m rt w0)).

(** The poems table after a call: rows kept, added or removed. *)
Definition poemsKept (w w' : World) : Prop :=
  rowsKept Poems.id (poems w) (poems w').

(** The same for the collections table. *)
Definition collectionsKept (w w' : World) : Prop :=
  rowsKept PoemCollections.id (collections w) (collections w').

(** The identifiers of a table, in order, are what they were. *)
Definition sameCollectionIds (w w' : World) : Prop :=
  map PoemCollections.id (collections w') = map PoemCollections.id (collections w).

Definition samePoemIds (w w' : World) : Prop :=
  map Poems.id (poems w') = map Poems.id (poems w).

(** Request bodies in which the caller tries to choose the identifier and
    the owner of the row. *)
Definition forgedCollectionBody : JsValue :=
  JsObject [("id", JsString "uuid-1"); ("userId", JsString "bob");
            ("name", JsString "Sea")].

Definition forgedPoemBody : JsValue :=
  JsObject [("id", JsString "uuid-2"); ("userId", JsString "bob");
            ("body", JsString "frog jumps in")].

(** The data of a successful outcome. *)
Definition dataOf (o : Outcome Data) : Data :=
  match o with
  | Ok d => d
  | Thrown _ => NoData
  end.

(** ** Sequences of requests *)

(** One request to [server]: the operation called, the body sent and the
    context it arrives in. *)
Record Request := mkRequest {
  req_operation : Operation;
  req_body : JsValue;
  req_context : ActionAPIContext
}.

Definition call (r : Request) : Action Data :=
  server (req_operation r) (req_body r) (req_context r).

(** The world after a sequence of requests, served one after the other. *)
Definition serve (requests : list Request) (rt : Runtime) (w : World) : World :=
  after (map call requests) rt w.

(** [thrownClean m]: when [m] throws, the tables are what they were. *)
Definition thrownClean {A} (m : Action A) : Prop :=
  forall rt w0 w, tables w0 = tables w ->
    forall e w', m rt w0 = (Thrown e, w') -> tables w' = tables w.

(** The rows of a table that belong to other users than [u]. *)
Definition othersCollections (u : string) (w : World) : list PoemCollections.row :=
  filter (fun c => negb (PoemCollections.userId c =? u)) (collections w).

Definition othersPoems (u : string) (w : World) : list Poems.row :=
  filter (fun p => negb (Poems.userId p =? u)) (poems w).

(** Every poem filed under a collection identifier other than the empty
    string is filed under a collection of its own owner. *)
Definition referencesOwned (w : World) : Prop :=
  forall p c,
    In p (poems w) ->
    Poems.collectionId p = Some c ->
    c <> "" ->
    owns w (Poems.userId p) c.

(** A value that is not a string of at least one character. *)
Definition notNonEmptyString (v : JsValue) : Prop :=
  forall s, v = JsString s -> s = "".

(** Alice's poem in [sampleWorld], and the same poem once she has given it a
    title. *)
Definition samplePoem : Poems.row :=
  Poems.mk "uuid-2" (Some "uuid-0") "alice" None None None None None
    "old pond" None false 1002%Z 1002%Z.

Definition titledPoem : Poems.row :=
  Poems.mk "uuid-2" (Some "uuid-0") "alice" (Some "Pond") None None None None
    "old pond" None false 1002%Z 1003%Z.

Definition titleBody : JsValue :=
  JsObject [("id", JsString "uuid-2"); ("title", JsString "Pond")].

(** The requests that lead from the empty store to [sampleWorld]. *)
Definition sampleRequests : list Request :=
  [ mkRequest CreateCollection (JsObject [("name", JsString "Nature")]) (signedIn alice);
    mkRequest CreateCollection (JsObject [("name", JsString "Travel")]) (signedIn bob);
    mkRequest CreatePoem
      (JsObject [("body", JsString "old pond"); ("collectionId", JsString "uuid-0")])
      (signedIn alice) ].

(** How a nullable text column reads as a key of a request body: the string,
    or no key at all. *)
Definition textOrUndefined (column : option string) : JsValue :=
  match column with
  | Some s => JsString s
  | None => JsUndefined
  end.

(** A flag of a stored row against the key of the body: the boolean sent,
    or [false] when the key was left out. *)
Definition flagSent (v : JsValue) (flag : bool) : Prop :=
  v = JsBool flag \/ (v = JsUndefined /\ flag = false).

(** ** Statements issued *)

Definition isSelect (op : DbOp) : bool :=
  match op with
  | DbSelect _ => true
  | _ => false
  end.

(** [onlyReads m]: the statements that [m] issues are queries. *)
Definition onlyReads {A} (m : Action A) : Prop :=
  forall rt w,
    exists reads,
      trace (snd (m rt w)) = trace w ++ reads
      /\ forallb isSelect reads = true.

(** [readsThenWrite m]: the statements that [m] issues are queries,
    followed by one other statement at most. *)
Definition readsThenWrite {A} (m : Action A) : Prop :=
  forall rt w,
    exists reads writes,
      trace (snd (m rt w)) = trace w ++ reads ++ writes
      /\ forallb isSelect reads = true
      /\ List.length writes <= 1.

(** ** Texts without NUL

    A text is handed back by the driver as it was sent when it holds no NUL
    character. *)
Fixpoint nulFree (s : string) : bool :=
  match s with
  | EmptyString => true
  | String a rest => negb (Ascii.eqb a Ascii.zero) && nulFree rest
  end.

Definition nulFreeOption (o : option string) : bool :=
  match o with
  | Some s => nulFree s
  | None => true
  end.

(** The text columns of a row are without NUL. *)
Definition cleanCollection (r : PoemCollections.row) : bool :=
  nulFree (PoemCollections.id r) && nulFree (PoemCollections.userId r)
  && nulFree (PoemCollections.name r)
  && nulFreeOption (PoemCollections.description r)
  && nulFreeOption (PoemCollections.icon r).

Definition cleanPoem (r : Poems.row) : bool :=
  nulFree (Poems.id r) && nulFreeOption (Poems.collectionId r)
  && nulFree (Poems.userId r) && nulFreeOption (Poems.title r)
  && nulFreeOption (Poems.form r) && nulFreeOption (Poems.style r)
  && nulFreeOption (Poems.language r) && nulFreeOption (Poems.prompt r)
  && nulFree (Poems.body r) && nulFreeOption (Poems.notes r).

(** The strings a request body holds under [keys] are without NUL. *)
Definition nulFreeValue (v : JsValue) : bool :=
  match v with
  | JsString s => nulFree s
  | _ => true
  end.

Definition cleanKeys (keys : list string) (fields : list (string * JsValue)) : bool :=
  forallb (fun k => nulFreeValue (lookupField k fields)) keys.

Definition collectionTextKeys : list string := ["name"; "description"; "icon"].

Definition poemTextKeys : list string :=
  ["collectionId"; "title"; "form"; "style"; "language"; "prompt"; "body"; "notes"].

(** What listPoems selects for the user [u]: the poems of [u], under the
    collection [cid] when it is a string other than the empty one, and the
    favourites only when [fav] is set. *)
Definition isListed (u : string) (cid : option string) (fav : bool)
    (p : Poems.row) : bool :=
  (Poems.userId p =? u)
  && match cid with
     | Some c => if c =? "" then true else eqNullable (Poems.collectionId p) c
     | None => true
     end
  && (if fav then Poems.isFavorite p else true).

(** * Properties *)

Ltac unfold_action :=
  unfold server, createCollection.action, updateCollection.action,
    listCollections.action, createPoem.action, updatePoem.action,
    deletePoem.action, listPoems.action.

(** ** The authorization gate *)

Lemma requireUser_none (context : ActionAPIContext) (rt : Runtime) (w : World) :
  localsUser context = None ->
  requireUser context rt w = (Thrown unauthorized, w).
Proof.
  intros H. unfold requireUser. rewrite H. reflexivity.
Qed.

Lemma requireUser_some (context : ActionAPIContext) (u : User.t) (rt : Runtime) (w : World) :
  localsUser context = Some u ->
  requireUser context rt w = (Ok u, w).
Proof.
  intros H. unfold requireUser. rewrite H. reflexivity.
Qed.

(** A handler that starts with [requireUser] stops there when no user is
    signed in. *)
Lemma gate_first {A} (context : ActionAPIContext) (k : User.t -> Action A)
    (rt : Runtime) (w : World) :
  localsUser context = None ->
  bind (requireUser context) k rt w = (Thrown unauthorized, w).
Proof.
  intros H. unfold bind. rewrite (requireUser_none _ _ _ H). reflexivity.
Qed.

Lemma gate_passed {A} (context : ActionAPIContext) (u : User.t)
    (k : User.t -> Action A) (rt : Runtime) (w : World) :
  localsUser context = Some u ->
  bind (requireUser context) k rt w = k u rt w.
Proof.
  intros H. unfold bind. rewrite (requireUser_some _ _ _ H). reflexivity.
Qed.

(** C8. In each of the seven operations the handler first asks for the
    signed-in user: when the request context carries none, it fails with
    UNAUTHORIZED and the world is exactly what it was, so that no statement
    reached the database, no identifier was drawn and no table changed. Seen
    from the entry points of [server], where the schema reads the body before
    the handler runs, such a request ends in UNAUTHORIZED or in the input
    error, and in both cases in the world it started in. *)
Theorem unauthenticated_request_stops_at_gate :
  forall (context : ActionAPIContext) (rt : Runtime) (w : World),
    localsUser context = None ->
    (forall i, createCollection.handler i context rt w = (Thrown unauthorized, w))
    /\ (forall i, updateCollection.handler i context rt w = (Thrown unauthorized, w))
    /\ (forall i, listCollections.handler i context rt w = (Thrown unauthorized, w))
    /\ (forall i, createPoem.handler i context rt w = (Thrown unauthorized, w))
    /\ (forall i, updatePoem.handler i context rt w = (Thrown unauthorized, w))
    /\ (forall i, deletePoem.handler i context rt w = (Thrown unauthorized, w))
    /\ (forall i, listPoems.handler i context rt w = (Thrown unauthorized, w))
    /\ (forall op body,
           server op body context rt w = (Thrown unauthorized, w)
           \/ server op body context rt w = (Thrown ActionInputError, w)).
Proof.
  intros context rt w H.
  repeat (split; [intros i; apply gate_first; exact H|]).
  intros op body.
  destruct op; unfold_action; unfold defineAction;
    match goal with
    | |- context [match ?parsed with _ => _ end] => destruct parsed
    end;
    ((left; apply gate_first; exact H) || (right; reflexivity)).
Qed.

Lemma unauthenticated_request_witness :
  deletePoem.handler (deletePoem.mkInput "uuid-2") anonymous sampleRuntime sampleWorld
  = (Thrown unauthorized, sampleWorld)
  /\ listPoems.handler None (mkContext None) sampleRuntime sampleWorld
     = (Thrown unauthorized, sampleWorld).
Proof.
  split.
  - apply (@unauthenticated_request_stops_at_gate
             anonymous sampleRuntime sampleWorld eq_refl).
  - apply (@unauthenticated_request_stops_at_gate
             (mkContext None) sampleRuntime sampleWorld eq_refl).
Defined.

(** ** The ownership resolver *)

Lemma filter_none {A} (p : A -> bool) (l : list A) :
  (forall x, In x l -> p x = false) -> filter p l = [].
Proof.
  induction l as [|a l IH]; intros H; simpl.
  - reflexivity.
  - rewrite (H a (or_introl eq_refl)). apply IH.
    intros x Hx. apply H. right. exact Hx.
Qed.

Lemma filter_head {A} (p : A -> bool) (l : list A) (x : A) (rest : list A) :
  filter p l = x :: rest -> In x l /\ p x = true.
Proof.
  intros H. apply filter_In. rewrite H. left. reflexivity.
Qed.

Lemma owns_collections (w1 w2 : World) (u c : string) :
  collections w1 = collections w2 -> owns w1 u c -> owns w2 u c.
Proof.
  unfold owns. intros E. rewrite E. exact (fun H => H).
Qed.

Lemma getOwnedCollection_missing (rt : Runtime) (w : World) (c u : string) :
  ~ owns w u c ->
  getOwnedCollection c u rt w
  = (Thrown collectionNotFound, logged (DbSelect TPoemCollections) w).
Proof.
  intros H. unfold getOwnedCollection, bind, selectCollections.
  rewrite filter_none; [reflexivity|].
  intros x Hx.
  destruct (PoemCollections.id x =? c) eqn:E1; [|reflexivity].
  destruct (PoemCollections.userId x =? u) eqn:E2; [|reflexivity].
  exfalso. apply H. exists x.
  apply String.eqb_eq in E1. apply String.eqb_eq in E2. auto.
Qed.

Lemma getOwnedCollection_inv (rt : Runtime) (w w' : World) (c u : string)
    (col : PoemCollections.row) :
  getOwnedCollection c u rt w = (Ok col, w') ->
  w' = logged (DbSelect TPoemCollections) w
  /\ In col (collections w)
  /\ PoemCollections.id col = c
  /\ PoemCollections.userId col = u.
Proof.
  unfold getOwnedCollection, bind, selectCollections.
  destruct (filter _ (collections w)) as [|x rest] eqn:F; simpl.
  - discriminate.
  - intros H. inversion H; subst. apply filter_head in F.
    destruct F as [Hin Hp]. apply andb_true_iff in Hp. destruct Hp as [E1 E2].
    apply String.eqb_eq in E1. apply String.eqb_eq in E2. auto.
Qed.

Lemma getOwnedCollection_found (rt : Runtime) (w : World) (c u : string) :
  owns w u c ->
  exists col,
    getOwnedCollection c u rt w = (Ok col, logged (DbSelect TPoemCollections) w).
Proof.
  intros [x [Hin [E1 E2]]].
  unfold getOwnedCollection, bind, selectCollections.
  destruct (filter _ (collections w)) as [|y rest] eqn:F; simpl.
  - exfalso.
    assert (Hx : In x (filter (fun c0 => (PoemCollections.id c0 =? c)
                                         && (PoemCollections.userId c0 =? u))
                         (collections w))).
    { apply filter_In. split; [exact Hin|].
      apply andb_true_iff. split; apply String.eqb_eq; assumption. }
    rewrite F in Hx. exact Hx.
  - exists y. reflexivity.
Qed.

(** C3. When a signed-in caller asks updatePoem to file a poem under a
    collection that the caller does not own (absent, or owned by someone
    else), the handler fails with NOT_FOUND and both tables are what they
    were: no row of the poems table, the targeted one included, has any field
    changed. *)
Theorem updatePoem_unowned_collection_changes_nothing :
  forall (rt : Runtime) (w : World) (context : ActionAPIContext) (u : User.t)
         (i : updatePoem.Input) (c : string),
    localsUser context = Some u ->
    updatePoem.collectionId i = Some c ->
    ~ owns w (User.id u) c ->
    exists message w',
      updatePoem.handler i context rt w = (Thrown (ActionError NOT_FOUND message), w')
      /\ poems w' = poems w
      /\ collections w' = collections w.
Proof.
  intros rt w context u i c Hu Hc Hown.
  unfold updatePoem.handler. rewrite gate_passed with (u := u) by exact Hu.
  unfold bind at 1. unfold selectPoems.
  destruct (filter _ (poems w)) as [|existing rest].
  - eexists. eexists. split; [reflexivity|]. split; reflexivity.
  - rewrite Hc. unfold bind.
    rewrite getOwnedCollection_missing.
    + eexists. eexists. split; [reflexivity|]. split; reflexivity.
    + intros H. apply Hown. revert H. apply owns_collections. reflexivity.
Qed.

Lemma updatePoem_unowned_collection_witness :
  exists message w',
    updatePoem.handler
      (updatePoem.mkInput "uuid-2" (Some "uuid-1") None None None None None None None None)
      (signedIn alice) sampleRuntime sampleWorld
    = (Thrown (ActionError NOT_FOUND message), w')
    /\ poems w' = poems sampleWorld
    /\ collections w' = collections sampleWorld.
Proof.
  apply (@updatePoem_unowned_collection_changes_nothing
           sampleRuntime sampleWorld (signedIn alice) alice _ "uuid-1").
  - reflexivity.
  - reflexivity.
  - intros [col [Hin [Hid Hu]]]. simpl in Hin.
    destruct Hin as [E|[E|[]]]; subst col; simpl in Hid, Hu; discriminate.
Defined.

(** ** Collection identifiers given to createPoem and listPoems *)

Lemma truthy_nonempty (s : string) : s <> "" -> truthy s = true.
Proof.
  intros H. unfold truthy. apply negb_true_iff. apply String.eqb_neq. exact H.
Qed.

(** createPoem, for a collection identifier other than the empty string that
    the caller does not own: NOT_FOUND, and the ownership query is the only
    statement issued. *)
Lemma createPoem_unowned_collection_inserts_nothing :
  forall (rt : Runtime) (w : World) (context : ActionAPIContext) (u : User.t)
         (i : createPoem.Input) (c : string),
    localsUser context = Some u ->
    createPoem.collectionId i = Some c ->
    c <> "" ->
    ~ owns w (User.id u) c ->
    createPoem.handler i context rt w
    = (Thrown collectionNotFound, logged (DbSelect TPoemCollections) w).
Proof.
  intros rt w context u i c Hu Hc Hne Hown.
  unfold createPoem.handler. rewrite gate_passed with (u := u) by exact Hu.
  rewrite Hc, (truthy_nonempty Hne). unfold bind.
  rewrite (getOwnedCollection_missing rt Hown). reflexivity.
Qed.

(** C1. createPoem called by a signed-in user with the collection identifier
    [""], in a store where no collection has that identifier (so that the
    caller owns none): the truthiness test lets the identifier through, the
    handler sends no query to the collections table, and its one statement,
    the insert, fails on the foreign key. The call ends in a storage error
    and not in NOT_FOUND; no row is stored. *)
Theorem createPoem_empty_collectionId_skips_ownership_check :
  forall (rt : Runtime) (w : World) (context : ActionAPIContext) (u : User.t)
         (i : createPoem.Input),
    localsUser context = Some u ->
    createPoem.collectionId i = Some "" ->
    (forall col, In col (collections w) -> PoemCollections.id col <> "") ->
    ~ owns w (User.id u) ""
    /\ createPoem.handler i context rt w
       = (Thrown StorageError,
          mkWorld (collections w) (poems w) (S (uuidCalls w)) (S (dateCalls w))
            (trace w ++ [DbInsert TPoems])).
Proof.
  intros rt w context u i Hu Hc Hnone. split.
  - intros [col [Hin [Hid _]]]. exact (Hnone col Hin Hid).
  - unfold createPoem.handler. rewrite gate_passed with (u := u) by exact Hu.
    rewrite Hc. unfold bind, newDate, randomUUID, insertPoem. simpl.
    destruct (existsb _ (poems w)); [reflexivity|].
    destruct (existsb (fun col => PoemCollections.id col =? "") (collections w))
      eqn:R; [|reflexivity].
    exfalso. apply existsb_exists in R. destruct R as [col [Hin Hid]].
    apply String.eqb_eq in Hid. exact (Hnone col Hin Hid).
Qed.

Lemma createPoem_empty_collectionId_witness :
  createPoem.action
    (JsObject [("body", JsString "frog jumps in"); ("collectionId", JsString "")])
    (signedIn alice) sampleRuntime sampleWorld
  = (Thrown StorageError,
     mkWorld (collections sampleWorld) (poems sampleWorld) 4 4
       (trace sampleWorld ++ [DbInsert TPoems])).
Proof.
  refine (proj2 (@createPoem_empty_collectionId_skips_ownership_check
                   sampleRuntime sampleWorld (signedIn alice) alice
                   (createPoem.mkInput (Some "") None None None None None
                      "frog jumps in" None None)
                   eq_refl eq_refl _)).
  intros col Hin. simpl in Hin.
  destruct Hin as [E|[E|[]]]; subst col; discriminate.
Defined.

(** listPoems called with the collection identifier [""]: no ownership query,
    no filter on the collection, every poem of the caller is listed. *)
Example listPoems_empty_collectionId_lists_everything :
  listPoems.action (JsObject [("collectionId", JsString "")]) (signedIn alice)
    sampleRuntime sampleWorld
  = (Ok (DataPoems (poems sampleWorld) 1), logged (DbSelect TPoems) sampleWorld).
Proof. reflexivity. Qed.

(** C2, as written, does not hold: the empty string is a collection
    identifier that the schema accepts and that nobody owns, and listPoems
    answers it with a list. *)
Lemma listPoems_unowned_collection_counterexample :
  ~ (forall (rt : Runtime) (w : World) (context : ActionAPIContext) (u : User.t)
            (c : string) (favoritesOnly : bool),
        localsUser context = Some u ->
        ~ owns w (User.id u) c ->
        exists message w',
          listPoems.handler (Some (listPoems.mkFields (Some c) favoritesOnly))
            context rt w
          = (Thrown (ActionError NOT_FOUND message), w')).
Proof.
  intros H.
  destruct (H sampleRuntime sampleWorld (signedIn alice) alice "" false eq_refl)
    as [message [w' E]].
  - intros [col [Hin [Hid _]]]. simpl in Hin.
    destruct Hin as [E|[E|[]]]; subst col; discriminate.
  - vm_compute in E. discriminate.
Qed.

(** C2, amended. When a signed-in caller gives listPoems a collection
    identifier other than the empty string that the caller does not own
    (absent, or owned by someone else), the handler fails with NOT_FOUND; the
    ownership query on the collections table is the only statement issued, so
    the poems table is not read at all and no list is returned. The empty
    string as collection identifier is no filter at all: the handler does
    what it does when the identifier is left out, that is, it sends one
    query, on the poems table, and lists with their count the poems of the
    caller (the favourites among them when [favoritesOnly] is set), without
    any ownership query. *)
Theorem listPoems_unowned_collection_not_found :
  forall (rt : Runtime) (w : World) (context : ActionAPIContext) (u : User.t)
         (c : string) (favoritesOnly : bool),
    localsUser context = Some u ->
    (c <> "" ->
     ~ owns w (User.id u) c ->
     listPoems.handler (Some (listPoems.mkFields (Some c) favoritesOnly)) context rt w
     = (Thrown collectionNotFound, logged (DbSelect TPoemCollections) w))
    /\ listPoems.handler (Some (listPoems.mkFields (Some "") favoritesOnly))
         context rt w
       = listPoems.handler (Some (listPoems.mkFields None favoritesOnly)) context rt w
    /\ (let items :=
           filter (fun p => (Poems.userId p =? User.id u)
                            && (if favoritesOnly then Poems.isFavorite p else true))
             (poems w) in
        listPoems.handler (Some (listPoems.mkFields (Some "") favoritesOnly))
          context rt w
        = (Ok (DataPoems items (List.length items)), logged (DbSelect TPoems) w)).
Proof.
  intros rt w context u c favoritesOnly Hu. split; [|split].
  - intros Hne Hown.
    unfold listPoems.handler. rewrite gate_passed with (u := u) by exact Hu.
    rewrite (truthy_nonempty Hne). unfold bind.
    rewrite (getOwnedCollection_missing rt Hown). reflexivity.
  - reflexivity.
  - cbv zeta. unfold listPoems.handler.
    rewrite gate_passed with (u := u) by exact Hu.
    cbv zeta. unfold bind, selectPoems, and_. simpl.
    destruct favoritesOnly; simpl.
    + rewrite (filter_ext
                 (fun p => (Poems.userId p =? User.id u) && (Poems.isFavorite p && true))
                 (fun p => (Poems.userId p =? User.id u) && Poems.isFavorite p)
                 (fun p => f_equal (andb (Poems.userId p =? User.id u))
                             (andb_true_r (Poems.isFavorite p)))).
      reflexivity.
    + reflexivity.
Qed.

Lemma listPoems_unowned_collection_witness :
  listPoems.handler (Some (listPoems.mkFields (Some "uuid-1") true))
    (signedIn alice) sampleRuntime sampleWorld
  = (Thrown collectionNotFound, logged (DbSelect TPoemCollections) sampleWorld).
Proof.
  apply (proj1 (@listPoems_unowned_collection_not_found
                  sampleRuntime sampleWorld (signedIn alice) alice "uuid-1" true
                  eq_refl)).
  - discriminate.
  - intros [col [Hin [Hid Hu]]]. simpl in Hin.
    destruct Hin as [E|[E|[]]]; subst col; simpl in Hid, Hu; discriminate.
Defined.

(** ** Updates that name no field *)

Lemma isUndefined_eq (v : JsValue) : isUndefined v = true -> v = JsUndefined.
Proof. destruct v; simpl; intros H; (reflexivity || discriminate). Qed.

Ltac split_omits H :=
  unfold omits in H; simpl in H;
  repeat (let H1 := fresh "U" in
          apply andb_true_iff in H; destruct H as [H1 H];
          apply isUndefined_eq in H1).

(** C4. An updateCollection or updatePoem request whose body names none of
    the fields that can be changed (whatever it gives as target id) is turned
    down by the input schema: the action throws the input error and the world
    is exactly what it was, so that no statement, read or write, reached the
    database. This holds whoever the caller is. *)
Theorem update_without_fields_is_rejected_before_storage :
  forall (fields : list (string * JsValue)) (context : ActionAPIContext)
         (rt : Runtime) (w : World),
    (omits collectionKeys fields = true ->
     updateCollection.action (JsObject fields) context rt w
     = (Thrown ActionInputError, w))
    /\ (omits poemKeys fields = true ->
        updatePoem.action (JsObject fields) context rt w
        = (Thrown ActionInputError, w)).
Proof.
  intros fields context rt w. split; intros H.
  - split_omits H.
    unfold updateCollection.action, defineAction, updateCollection.input,
      z.refine, z.object.
    rewrite U, U0, U1, U2.
    destruct (z.string_min 1 (lookupField "id" fields)); reflexivity.
  - split_omits H.
    unfold updatePoem.action, defineAction, updatePoem.input, z.refine, z.object.
    rewrite U, U0, U1, U2, U3, U4, U5, U6, U7.
    destruct (z.string_min 1 (lookupField "id" fields)); reflexivity.
Qed.

Lemma update_without_fields_witness :
  updateCollection.action (JsObject [("id", JsString "uuid-0")]) (signedIn alice)
    sampleRuntime sampleWorld
  = (Thrown ActionInputError, sampleWorld)
  /\ updatePoem.action (JsObject [("id", JsString "uuid-2")]) (signedIn alice)
       sampleRuntime sampleWorld
     = (Thrown ActionInputError, sampleWorld).
Proof.
  split.
  - apply (proj1 (update_without_fields_is_rejected_before_storage
                    [("id", JsString "uuid-0")] (signedIn alice)
                    sampleRuntime sampleWorld)).
    reflexivity.
  - apply (proj2 (update_without_fields_is_rejected_before_storage
                    [("id", JsString "uuid-2")] (signedIn alice)
                    sampleRuntime sampleWorld)).
    reflexivity.
Defined.

(** ** Creating rows *)

Lemma existsb_id_false {A} (ident : A -> string) (x : string) (l : list A) :
  existsb (fun a => ident a =? x) l = false -> ~ In x (map ident l).
Proof.
  induction l as [|a l IH]; simpl; intros H.
  - exact (fun F => F).
  - apply orb_false_iff in H. destruct H as [H1 H2].
    intros [E|Hin].
    + apply String.eqb_neq in H1. contradiction.
    + exact (IH H2 Hin).
Qed.

Lemma existsb_id_true {A} (ident : A -> string) (x : string) (l : list A) :
  existsb (fun a => ident a =? x) l = true -> In x (map ident l).
Proof.
  intros H. apply existsb_exists in H. destruct H as [a [Hin E]].
  apply String.eqb_eq in E. subst x. apply in_map. exact Hin.
Qed.

(** What a successful createCollection did. *)
Lemma createCollection_inv (i : createCollection.Input) (context : ActionAPIContext)
    (rt : Runtime) (w w' : World) (d : Data) :
  createCollection.handler i context rt w = (Ok d, w') ->
  exists u,
    localsUser context = Some u
    /\ let now := timeAt rt (dateCalls w) in
       let row := PoemCollections.mk (uuidAt rt (uuidCalls w)) (User.id u)
                    (createCollection.name i) (createCollection.description i)
                    (createCollection.icon i)
                    (orElse (createCollection.isDefault i) false) now now in
       d = DataCollection (Some row)
       /\ collections w' = collections w ++ [row]
       /\ poems w' = poems w
       /\ ~ In (PoemCollections.id row) (map PoemCollections.id (collections w)).
Proof.
  unfold createCollection.handler.
  destruct (localsUser context) as [u|] eqn:Hu.
  - rewrite gate_passed with (u := u) by exact Hu.
    unfold bind, newDate, randomUUID, insertCollection. simpl.
    destruct (existsb _ (collections w)) eqn:E; intros H; inversion H; subst.
    exists u. split; [reflexivity|]. simpl.
    repeat split. apply existsb_id_false in E. exact E.
  - rewrite gate_first by exact Hu. discriminate.
Qed.

(** What a successful createPoem did. *)
Lemma createPoem_inv (i : createPoem.Input) (context : ActionAPIContext)
    (rt : Runtime) (w w' : World) (d : Data) :
  createPoem.handler i context rt w = (Ok d, w') ->
  exists u,
    localsUser context = Some u
    /\ let now := timeAt rt (dateCalls w) in
       let row := Poems.mk (uuidAt rt (uuidCalls w)) (createPoem.collectionId i)
                    (User.id u) (createPoem.title i) (createPoem.form i)
                    (createPoem.style i) (createPoem.language i)
                    (createPoem.prompt i) (createPoem.body i) (createPoem.notes i)
                    (orElse (createPoem.isFavorite i) false) now now in
       d = DataPoem (Some row)
       /\ poems w' = poems w ++ [row]
       /\ collections w' = collections w
       /\ ~ In (Poems.id row) (map Poems.id (poems w)).
Proof.
  unfold createPoem.handler.
  destruct (localsUser context) as [u|] eqn:Hu.
  - rewrite gate_passed with (u := u) by exact Hu.
    assert (Hins : forall w0 : World,
               w0 = w \/ w0 = logged (DbSelect TPoemCollections) w ->
               (now <- newDate ;;
                uuid <- randomUUID ;;
                rows <- insertPoem
                          (Poems.mk uuid (createPoem.collectionId i) (User.id u)
                             (createPoem.title i) (createPoem.form i)
                             (createPoem.style i) (createPoem.language i)
                             (createPoem.prompt i) (createPoem.body i)
                             (createPoem.notes i)
                             (orElse (createPoem.isFavorite i) false) now now) ;;
                ret (DataPoem (hd_error rows))) rt w0 = (Ok d, w') ->
               exists u0 : User.t,
                 Some u = Some u0
                 /\ d = DataPoem
                          (Some (Poems.mk (uuidAt rt (uuidCalls w))
                                   (createPoem.collectionId i) (User.id u0)
                                   (createPoem.title i) (createPoem.form i)
                                   (createPoem.style i) (createPoem.language i)
                                   (createPoem.prompt i) (createPoem.body i)
                                   (createPoem.notes i)
                                   (orElse (createPoem.isFavorite i) false)
                                   (timeAt rt (dateCalls w))
                                   (timeAt rt (dateCalls w))))
                 /\ poems w'
                    = poems w
                      ++ [Poems.mk (uuidAt rt (uuidCalls w))
                            (createPoem.collectionId i) (User.id u0)
                            (createPoem.title i) (createPoem.form i)
                            (createPoem.style i) (createPoem.language i)
                            (createPoem.prompt i) (createPoem.body i)
                            (createPoem.notes i)
                            (orElse (createPoem.isFavorite i) false)
                            (timeAt rt (dateCalls w)) (timeAt rt (dateCalls w))]
                 /\ collections w' = collections w
                 /\ ~ In (uuidAt rt (uuidCalls w)) (map Poems.id (poems w))).
    { intros w0 Hw0.
      unfold bind, newDate, randomUUID, insertPoem. simpl.
      assert (E0 : poems w0 = poems w /\ collections w0 = collections w
                   /\ uuidCalls w0 = uuidCalls w /\ dateCalls w0 = dateCalls w).
      { destruct Hw0; subst w0; repeat split. }
      destruct E0 as [Hp [Hc [Hn Hd]]]. rewrite Hp, Hn, Hd.
      destruct (existsb _ (poems w)) eqn:E; [intros H; inversion H|].
      destruct (referenceHolds _ _); intros H; inversion H; subst.
      exists u. simpl. rewrite ?Hp, ?Hc.
      repeat split. apply existsb_id_false in E. exact E. }
    cbv zeta. unfold bind at 1.
    destruct (createPoem.collectionId i) as [c|].
    + destruct (truthy c).
      * unfold bind at 1.
        destruct (getOwnedCollection c (User.id u) rt w) as [[col|e] w0] eqn:G.
        -- apply getOwnedCollection_inv in G. destruct G as [-> _].
           simpl. apply Hins. right. reflexivity.
        -- discriminate.
      * simpl. apply Hins. left. reflexivity.
    + simpl. apply Hins. left. reflexivity.
  - rewrite gate_first by exact Hu. discriminate.
Qed.

(** C5. For a signed-in caller, whatever the request body holds (fields named
    [id] or [userId] included): the row that a successful createCollection or
    createPoem returns is stored, its owner is the caller, and its identifier
    is the one just drawn from [crypto.randomUUID], which no row of the
    table had; the schema drops [id] and [userId] from the body, so that the
    action does exactly what it does without them. *)
Theorem created_row_is_owned_by_caller_with_new_id :
  forall (rt : Runtime) (w : World) (context : ActionAPIContext) (u : User.t),
    localsUser context = Some u ->
    (forall body d w',
        createCollection.action body context rt w = (Ok d, w') ->
        exists row,
          d = DataCollection (Some row)
          /\ In row (collections w')
          /\ PoemCollections.userId row = User.id u
          /\ PoemCollections.id row = uuidAt rt (uuidCalls w)
          /\ ~ In (PoemCollections.id row) (map PoemCollections.id (collections w)))
    /\ (forall body d w',
           createPoem.action body context rt w = (Ok d, w') ->
           exists row,
             d = DataPoem (Some row)
             /\ In row (poems w')
             /\ Poems.userId row = User.id u
             /\ Poems.id row = uuidAt rt (uuidCalls w)
             /\ ~ In (Poems.id row) (map Poems.id (poems w)))
    /\ (forall fields v1 v2,
           createCollection.action
             (JsObject (("id", v1) :: ("userId", v2) :: fields)) context rt w
           = createCollection.action (JsObject fields) context rt w)
    /\ (forall fields v1 v2,
           createPoem.action
             (JsObject (("id", v1) :: ("userId", v2) :: fields)) context rt w
           = createPoem.action (JsObject fields) context rt w).
Proof.
  intros rt w context u Hu. split; [|split; [|split]].
  - intros body d w'. unfold createCollection.action, defineAction.
    destruct (createCollection.input body) as [i|]; [|discriminate].
    intros H. apply createCollection_inv in H.
    destruct H as [u0 [Hu0 H]]. cbv zeta in H.
    destruct H as [Hd [Hc [_ Hfresh]]].
    rewrite Hu in Hu0. inversion Hu0; subst u0.
    eexists. split; [exact Hd|]. simpl. rewrite Hc.
    repeat split.
    + apply in_or_app. right. left. reflexivity.
    + exact Hfresh.
  - intros body d w'. unfold createPoem.action, defineAction.
    destruct (createPoem.input body) as [i|]; [|discriminate].
    intros H. apply createPoem_inv in H.
    destruct H as [u0 [Hu0 H]]. cbv zeta in H.
    destruct H as [Hd [Hp [_ Hfresh]]].
    rewrite Hu in Hu0. inversion Hu0; subst u0.
    eexists. split; [exact Hd|]. simpl. rewrite Hp.
    repeat split.
    + apply in_or_app. right. left. reflexivity.
    + exact Hfresh.
  - reflexivity.
  - reflexivity.
Qed.

Lemma created_row_is_owned_by_caller_witness :
  (exists row,
      dataOf (fst (createCollection.action forgedCollectionBody (signedIn alice)
                     sampleRuntime sampleWorld))
      = DataCollection (Some row)
      /\ PoemCollections.userId row = "alice"
      /\ PoemCollections.id row = "uuid-3")
  /\ (exists row,
         dataOf (fst (createPoem.action forgedPoemBody (signedIn alice)
                        sampleRuntime sampleWorld))
         = DataPoem (Some row)
         /\ Poems.userId row = "alice"
         /\ Poems.id row = "uuid-3").
Proof.
  destruct (@created_row_is_owned_by_caller_with_new_id
              sampleRuntime sampleWorld (signedIn alice) alice eq_refl)
    as [HC [HP _]].
  split.
  - destruct (HC forgedCollectionBody
                (dataOf (fst (createCollection.action forgedCollectionBody
                                (signedIn alice) sampleRuntime sampleWorld)))
                (snd (createCollection.action forgedCollectionBody
                        (signedIn alice) sampleRuntime sampleWorld))
                eq_refl)
      as [row [Hd [_ [Hu [Hi _]]]]].
    exists row. repeat split; assumption.
  - destruct (HP forgedPoemBody
                (dataOf (fst (createPoem.action forgedPoemBody
                                (signedIn alice) sampleRuntime sampleWorld)))
                (snd (createPoem.action forgedPoemBody
                        (signedIn alice) sampleRuntime sampleWorld))
                eq_refl)
      as [row [Hd [_ [Hu [Hi _]]]]].
    exists row. repeat split; assumption.
Defined.

(** C9. The row that a successful createCollection or createPoem returns and
    stores carries one and the same clock reading, the one taken during the
    call, as [createdAt] and as [updatedAt]; and its flag ([isDefault] of a
    collection, [isFavorite] of a poem) is [false] when the input leaves it
    out. *)
Theorem created_row_timestamps_and_default_flag :
  forall (rt : Runtime) (w w' : World) (context : ActionAPIContext) (d : Data),
    (forall i,
        createCollection.handler i context rt w = (Ok d, w') ->
        exists row,
          d = DataCollection (Some row)
          /\ In row (collections w')
          /\ PoemCollections.createdAt row = timeAt rt (dateCalls w)
          /\ PoemCollections.updatedAt row = PoemCollections.createdAt row
          /\ (createCollection.isDefault i = None ->
              PoemCollections.isDefault row = false))
    /\ (forall i,
           createPoem.handler i context rt w = (Ok d, w') ->
           exists row,
             d = DataPoem (Some row)
             /\ In row (poems w')
             /\ Poems.createdAt row = timeAt rt (dateCalls w)
             /\ Poems.updatedAt row = Poems.createdAt row
             /\ (createPoem.isFavorite i = None -> Poems.isFavorite row = false)).
Proof.
  intros rt w w' context d. split; intros i H.
  - apply createCollection_inv in H.
    destruct H as [u [_ H]]. cbv zeta in H. destruct H as [Hd [Hc _]].
    eexists. split; [exact Hd|]. rewrite Hc. simpl.
    split; [apply in_or_app; right; left; reflexivity|].
    split; [reflexivity|]. split; [reflexivity|].
    intros E. rewrite E. reflexivity.
  - apply createPoem_inv in H.
    destruct H as [u [_ H]]. cbv zeta in H. destruct H as [Hd [Hp _]].
    eexists. split; [exact Hd|]. rewrite Hp. simpl.
    split; [apply in_or_app; right; left; reflexivity|].
    split; [reflexivity|]. split; [reflexivity|].
    intros E. rewrite E. reflexivity.
Qed.

Lemma created_row_timestamps_witness :
  exists row,
    dataOf (fst (createPoem.handler
                   (createPoem.mkInput None (Some "Frog") None None None None
                      "frog jumps in" None None)
                   (signedIn alice) sampleRuntime sampleWorld))
    = DataPoem (Some row)
    /\ Poems.createdAt row = 1003%Z
    /\ Poems.updatedAt row = 1003%Z
    /\ Poems.isFavorite row = false.
Proof.
  pose (i := createPoem.mkInput None (Some "Frog") None None None None
               "frog jumps in" None None).
  pose (r := createPoem.handler i (signedIn alice) sampleRuntime sampleWorld).
  destruct (proj2 (@created_row_timestamps_and_default_flag
                     sampleRuntime sampleWorld (snd r) (signedIn alice)
                     (dataOf (fst r)))
              i eq_refl)
    as [row [Hd [_ [Hc [Hu Hf]]]]].
  exists row. split; [exact Hd|].
  split; [exact Hc|]. split; [rewrite Hu; exact Hc|]. apply Hf. reflexivity.
Defined.

(** ** Deleting a poem *)

Lemma filter_nil_false {A} (p : A -> bool) (l : list A) :
  filter p l = [] -> forall x, In x l -> p x = false.
Proof.
  intros F x Hx. destruct (p x) eqn:E; [|reflexivity].
  assert (H : In x (filter p l)) by (apply filter_In; auto).
  rewrite F in H. destruct H.
Qed.

Lemma filter_negb_all {A} (p : A -> bool) (l : list A) :
  (forall x, In x l -> p x = false) -> filter (fun x => negb (p x)) l = l.
Proof.
  induction l as [|a l IH]; intros H; simpl.
  - reflexivity.
  - rewrite (H a (or_introl eq_refl)). simpl. f_equal.
    apply IH. intros x Hx. apply H. right. exact Hx.
Qed.

Lemma ownsPoem_filter (w : World) (u pid : string) :
  ownsPoem w u pid
  <-> filter (fun p => (Poems.id p =? pid) && (Poems.userId p =? u)) (poems w) <> [].
Proof.
  split.
  - intros [p [Hin [E1 E2]]] F.
    apply filter_nil_false with (x := p) in F; [|exact Hin].
    apply String.eqb_eq in E1. apply String.eqb_eq in E2.
    rewrite E1, E2 in F. discriminate.
  - intros F.
    destruct (filter _ (poems w)) as [|x rest] eqn:E; [contradiction|].
    apply filter_head in E. destruct E as [Hin Hp].
    apply andb_true_iff in Hp. destruct Hp as [E1 E2].
    apply String.eqb_eq in E1. apply String.eqb_eq in E2.
    exists x. auto.
Qed.

(** C6. deletePoem issues one statement, a delete on the poems table, and no
    lookup. The rows it removes are those whose id is the given one and whose
    owner is the caller; every other row stays, in place. When no row has
    both (the id is unknown, or its row belongs to someone else) the outcome
    is one and the same: NOT_FOUND with the same message, and tables that did
    not change. When there is such a row the call succeeds. *)
Theorem deletePoem_own_rows_only_else_not_found :
  forall (rt : Runtime) (w : World) (context : ActionAPIContext) (u : User.t)
         (i : deletePoem.Input),
    localsUser context = Some u ->
    let result := deletePoem.handler i context rt w in
    poems (snd result)
    = filter (fun p => negb ((Poems.id p =? deletePoem.id i)
                             && (Poems.userId p =? User.id u)))
        (poems w)
    /\ collections (snd result) = collections w
    /\ trace (snd result) = trace w ++ [DbDelete TPoems]
    /\ (~ ownsPoem w (User.id u) (deletePoem.id i) ->
        result = (Thrown poemNotFound, logged (DbDelete TPoems) w))
    /\ (ownsPoem w (User.id u) (deletePoem.id i) -> fst result = Ok NoData).
Proof.
  intros rt w context u i Hu result. subst result.
  unfold deletePoem.handler. rewrite gate_passed with (u := u) by exact Hu.
  unfold bind, deletePoems.
  pose proof (ownsPoem_filter w (User.id u) (deletePoem.id i)) as Hown.
  destruct (filter _ (poems w)) as [|x rest] eqn:F; simpl.
  - split; [reflexivity|]. split; [reflexivity|]. split; [reflexivity|]. split.
    + intros _. unfold withPoems, logged. simpl.
      rewrite filter_negb_all; [reflexivity|].
      apply filter_nil_false. exact F.
    + intros H. apply Hown in H. contradiction.
  - split; [reflexivity|]. split; [reflexivity|]. split; [reflexivity|]. split.
    + intros H. exfalso. apply H. apply Hown. discriminate.
    + reflexivity.
Qed.

Lemma deletePoem_witness :
  deletePoem.handler (deletePoem.mkInput "uuid-2") (signedIn bob)
    sampleRuntime sampleWorld
  = (Thrown poemNotFound, logged (DbDelete TPoems) sampleWorld)
  /\ deletePoem.handler (deletePoem.mkInput "uuid-9") (signedIn bob)
       sampleRuntime sampleWorld
     = (Thrown poemNotFound, logged (DbDelete TPoems) sampleWorld)
  /\ fst (deletePoem.handler (deletePoem.mkInput "uuid-2") (signedIn alice)
            sampleRuntime sampleWorld)
     = Ok NoData.
Proof.
  assert (Hbob : forall pid, ~ ownsPoem sampleWorld (User.id bob) pid).
  { intros pid [p [Hin [_ Hu]]]. simpl in Hin.
    destruct Hin as [E|[]]; subst p; discriminate. }
  split; [|split].
  - apply (@deletePoem_own_rows_only_else_not_found
             sampleRuntime sampleWorld (signedIn bob) bob
             (deletePoem.mkInput "uuid-2") eq_refl).
    apply Hbob.
  - apply (@deletePoem_own_rows_only_else_not_found
             sampleRuntime sampleWorld (signedIn bob) bob
             (deletePoem.mkInput "uuid-9") eq_refl).
    apply Hbob.
  - apply (@deletePoem_own_rows_only_else_not_found
             sampleRuntime sampleWorld (signedIn alice) alice
             (deletePoem.mkInput "uuid-2") eq_refl).
    eexists. split; [left; reflexivity|]. split; reflexivity.
Defined.

(** ** Updating a row *)

Lemma update_elsewhere {A} (ident : A -> string) (f : A -> A) (x : string)
    (l : list A) :
  ~ In x (map ident l) ->
  map (fun a => if ident a =? x then f a else a) l = l
  /\ filter (fun a => ident a =? x) l = [].
Proof.
  induction l as [|a l IH]; simpl; intros H.
  - split; reflexivity.
  - assert (Ha : ident a <> x) by (intros E; apply H; left; exact E).
    assert (Hl : ~ In x (map ident l)) by (intros E; apply H; right; exact E).
    apply String.eqb_neq in Ha. rewrite Ha.
    destruct (IH Hl) as [IH1 IH2]. rewrite IH1, IH2. split; reflexivity.
Qed.

(** With unique identifiers, an update by identifier rewrites one row, where
    it stands. *)
Lemma update_unique {A} (ident : A -> string) (f : A -> A) (l : list A) (old : A) :
  NoDup (map ident l) ->
  In old l ->
  exists before after,
    l = before ++ old :: after
    /\ map (fun a => if ident a =? ident old then f a else a) l
       = before ++ f old :: after
    /\ filter (fun a => ident a =? ident old) l = [old].
Proof.
  intros Hnd Hin.
  destruct (in_split _ _ Hin) as [before [after E]]. subst l.
  exists before, after. split; [reflexivity|].
  rewrite map_app in Hnd. simpl in Hnd.
  pose proof (NoDup_remove_2 _ _ _ Hnd) as Hnot.
  assert (Hb : ~ In (ident old) (map ident before))
    by (intros F; apply Hnot; apply in_or_app; left; exact F).
  assert (Ha : ~ In (ident old) (map ident after))
    by (intros F; apply Hnot; apply in_or_app; right; exact F).
  destruct (@update_elsewhere _ ident f _ _ Hb) as [Mb Fb].
  destruct (@update_elsewhere _ ident f _ _ Ha) as [Ma Fa].
  rewrite map_app, filter_app. simpl.
  rewrite String.eqb_refl, Mb, Ma, Fb, Fa. split; reflexivity.
Qed.

(** What a successful updateCollection did. *)
Lemma updateCollection_inv (i : updateCollection.Input) (context : ActionAPIContext)
    (rt : Runtime) (w w' : World) (d : Data) :
  NoDup (map PoemCollections.id (collections w)) ->
  updateCollection.handler i context rt w = (Ok d, w') ->
  exists u old before after,
    localsUser context = Some u
    /\ PoemCollections.id old = updateCollection.id i
    /\ PoemCollections.userId old = User.id u
    /\ collections w = before ++ old :: after
    /\ collections w'
       = before ++ updateCollection.set i (timeAt rt (dateCalls w)) old :: after
    /\ d = DataCollection
             (Some (updateCollection.set i (timeAt rt (dateCalls w)) old))
    /\ poems w' = poems w.
Proof.
  intros Hnd. unfold updateCollection.handler.
  destruct (localsUser context) as [u|] eqn:Hu.
  - rewrite gate_passed with (u := u) by exact Hu.
    unfold bind at 1.
    destruct (getOwnedCollection _ _ rt w) as [[old|e] w0] eqn:G; [|discriminate].
    apply getOwnedCollection_inv in G. destruct G as [-> [Hin [Hid Howner]]].
    unfold bind, newDate, updateCollections. simpl.
    destruct (@update_unique _ PoemCollections.id
                (updateCollection.set i (timeAt rt (dateCalls w))) _ _ Hnd Hin)
      as [before [after [El [Em Ef]]]].
    rewrite Hid in Em, Ef. rewrite Em, Ef. simpl.
    intros H. inversion H; subst.
    exists u, old, before, after. repeat split; assumption.
  - rewrite gate_first by exact Hu. discriminate.
Qed.

(** What a successful updatePoem did. *)
Lemma updatePoem_inv (i : updatePoem.Input) (context : ActionAPIContext)
    (rt : Runtime) (w w' : World) (d : Data) :
  NoDup (map Poems.id (poems w)) ->
  updatePoem.handler i context rt w = (Ok d, w') ->
  exists u old before after,
    localsUser context = Some u
    /\ Poems.id old = updatePoem.id i
    /\ Poems.userId old = User.id u
    /\ poems w = before ++ old :: after
    /\ poems w' = before ++ updatePoem.set i (timeAt rt (dateCalls w)) old :: after
    /\ d = DataPoem (Some (updatePoem.set i (timeAt rt (dateCalls w)) old))
    /\ collections w' = collections w
    /\ (forall c, updatePoem.collectionId i = Some c -> owns w (User.id u) c).
Proof.
  intros Hnd. unfold updatePoem.handler.
  destruct (localsUser context) as [u|] eqn:Hu.
  - rewrite gate_passed with (u := u) by exact Hu.
    unfold bind at 1. unfold selectPoems.
    destruct (filter _ (poems w)) as [|old rest] eqn:F; [discriminate|].
    apply filter_head in F. destruct F as [Hin Hp].
    apply andb_true_iff in Hp. destruct Hp as [Hid Howner].
    apply String.eqb_eq in Hid. apply String.eqb_eq in Howner.
    destruct (@update_unique _ Poems.id
                (updatePoem.set i (timeAt rt (dateCalls w))) _ _ Hnd Hin)
      as [before [after [El [Em Ef]]]].
    rewrite Hid in Em, Ef.
    unfold bind at 1.
    destruct (updatePoem.collectionId i) as [c|] eqn:Hc.
    + unfold bind at 1.
      destruct (getOwnedCollection c (User.id u) rt _) as [[col|e] w0] eqn:G;
        [|discriminate].
      apply getOwnedCollection_inv in G. destruct G as [-> [Hcin [Hcid Hcu]]].
      unfold bind, newDate, updatePoems. simpl.
      rewrite Em, Ef. simpl. intros H. inversion H; subst.
      exists u, old, before, after. repeat split; try assumption.
      intros c0 E. inversion E; subst c0. exists col. auto.
    + unfold bind, newDate, updatePoems. simpl.
      rewrite Em, Ef. simpl. intros H. inversion H; subst.
      exists u, old, before, after. repeat split; try assumption.
      intros c0 E. discriminate.
  - rewrite gate_first by exact Hu. discriminate.
Qed.

(** C7. In a store whose identifiers are unique (they are primary keys), a
    successful updateCollection or updatePoem rewrites one row, the one with
    the given id, where it stands, and returns it as rewritten. In that row
    each column named in the input holds the supplied value and each column
    left out holds what it held before; [id], the owner and [createdAt] are
    kept; [updatedAt] is the clock reading taken during the call. The rows
    before and after it, and the whole other table, are what they were. *)
Theorem update_rewrites_supplied_fields_of_one_row :
  forall (rt : Runtime) (w w' : World) (context : ActionAPIContext) (d : Data),
    primaryKeys w ->
    (forall i,
        updateCollection.handler i context rt w = (Ok d, w') ->
        exists old new before after,
          d = DataCollection (Some new)
          /\ collections w = before ++ old :: after
          /\ collections w' = before ++ new :: after
          /\ poems w' = poems w
          /\ PoemCollections.id old = updateCollection.id i
          /\ PoemCollections.id new = PoemCollections.id old
          /\ PoemCollections.userId new = PoemCollections.userId old
          /\ PoemCollections.createdAt new = PoemCollections.createdAt old
          /\ PoemCollections.updatedAt new = timeAt rt (dateCalls w)
          /\ patched asIs (updateCollection.name i)
               (PoemCollections.name old) (PoemCollections.name new)
          /\ patched Some (updateCollection.description i)
               (PoemCollections.description old) (PoemCollections.description new)
          /\ patched Some (updateCollection.icon i)
               (PoemCollections.icon old) (PoemCollections.icon new)
          /\ patched asIs (updateCollection.isDefault i)
               (PoemCollections.isDefault old) (PoemCollections.isDefault new))
    /\ (forall i,
           updatePoem.handler i context rt w = (Ok d, w') ->
           exists old new before after,
             d = DataPoem (Some new)
             /\ poems w = before ++ old :: after
             /\ poems w' = before ++ new :: after
             /\ collections w' = collections w
             /\ Poems.id old = updatePoem.id i
             /\ Poems.id new = Poems.id old
             /\ Poems.userId new = Poems.userId old
             /\ Poems.createdAt new = Poems.createdAt old
             /\ Poems.updatedAt new = timeAt rt (dateCalls w)
             /\ patched Some (updatePoem.collectionId i)
                  (Poems.collectionId old) (Poems.collectionId new)
             /\ patched Some (updatePoem.title i) (Poems.title old) (Poems.title new)
             /\ patched Some (updatePoem.form i) (Poems.form old) (Poems.form new)
             /\ patched Some (updatePoem.style i) (Poems.style old) (Poems.style new)
             /\ patched Some (updatePoem.language i)
                  (Poems.language old) (Poems.language new)
             /\ patched Some (updatePoem.prompt i) (Poems.prompt old) (Poems.prompt new)
             /\ patched asIs (updatePoem.body i) (Poems.body old) (Poems.body new)
             /\ patched Some (updatePoem.notes i) (Poems.notes old) (Poems.notes new)
             /\ patched asIs (updatePoem.isFavorite i)
                  (Poems.isFavorite old) (Poems.isFavorite new)).
Proof.
  intros rt w w' context d [Hcs Hps]. split; intros i H.
  - apply updateCollection_inv in H; [|exact Hcs].
    destruct H as [u [old [before [after [_ [Hid [_ [Hw [Hw' [Hd Hp]]]]]]]]]].
    exists old, (updateCollection.set i (timeAt rt (dateCalls w)) old), before, after.
    repeat (split; [first [assumption | reflexivity]|]).
    unfold patched, asIs. simpl.
    destruct i as [iid [n|] [de|] [ic|] [df|]]; simpl; repeat split.
  - apply updatePoem_inv in H; [|exact Hps].
    destruct H as [u [old [before [after [_ [Hid [_ [Hw [Hw' [Hd [Hc _]]]]]]]]]]].
    exists old, (updatePoem.set i (timeAt rt (dateCalls w)) old), before, after.
    repeat (split; [first [assumption | reflexivity]|]).
    unfold patched, asIs. simpl.
    destruct i as [iid [c|] [t|] [f|] [s|] [l|] [p|] [b|] [n|] [fav|]];
      simpl; repeat split.
Qed.

Lemma sampleWorld_primaryKeys : primaryKeys sampleWorld.
Proof.
  split; simpl; repeat constructor; simpl; intuition discriminate.
Qed.

Lemma update_rewrites_supplied_fields_witness :
  (exists old new,
      dataOf (fst (updateCollection.handler
                     (updateCollection.mkInput "uuid-0" (Some "Nature poems")
                        None None None)
                     (signedIn alice) sampleRuntime sampleWorld))
      = DataCollection (Some new)
      /\ In old (collections sampleWorld)
      /\ PoemCollections.name new = "Nature poems"
      /\ PoemCollections.isDefault new = PoemCollections.isDefault old
      /\ PoemCollections.updatedAt new = 1003%Z)
  /\ (exists old new,
         dataOf (fst (updatePoem.handler
                        (updatePoem.mkInput "uuid-2" None None None None None
                           None None None (Some true))
                        (signedIn alice) sampleRuntime sampleWorld))
         = DataPoem (Some new)
         /\ In old (poems sampleWorld)
         /\ Poems.isFavorite new = true
         /\ Poems.title new = Poems.title old
         /\ Poems.updatedAt new = 1003%Z).
Proof.
  split.
  - pose (i := updateCollection.mkInput "uuid-0" (Some "Nature poems")
                 None None None).
    pose (r := updateCollection.handler i (signedIn alice) sampleRuntime sampleWorld).
    destruct (proj1 (@update_rewrites_supplied_fields_of_one_row
                       sampleRuntime sampleWorld (snd r) (signedIn alice)
                       (dataOf (fst r)) sampleWorld_primaryKeys)
                i eq_refl)
      as [old [new [before [after H]]]].
    exists old, new.
    destruct H as [Hd [Hw [_ [_ [_ [_ [_ [_ [Hu [Hn [_ [_ Hf]]]]]]]]]]]].
    split; [exact Hd|]. split.
    + rewrite Hw. apply in_or_app. right. left. reflexivity.
    + split; [exact Hn|]. split; [exact Hf|exact Hu].
  - pose (i := updatePoem.mkInput "uuid-2" None None None None None
                 None None None (Some true)).
    pose (r := updatePoem.handler i (signedIn alice) sampleRuntime sampleWorld).
    destruct (proj2 (@update_rewrites_supplied_fields_of_one_row
                       sampleRuntime sampleWorld (snd r) (signedIn alice)
                       (dataOf (fst r)) sampleWorld_primaryKeys)
                i eq_refl)
      as [old [new [before [after H]]]].
    exists old, new.
    destruct H as [Hd [Hw [_ [_ [_ [_ [_ [_ [Hu [_ [Ht [_ [_ [_ [_ [_ [_ Hf]]]]]]]]]]]]]]]]].
    split; [exact Hd|]. split.
    + rewrite Hw. apply in_or_app. right. left. reflexivity.
    + split; [exact Hf|]. split; [exact Ht|exact Hu].
Defined.

(** ** Frames of the statements and of the handlers *)

Lemma keeps_bind {T A B} (proj : World -> T) (m : Action A) (k : A -> Action B) :
  keeps proj m -> (forall a, keeps proj (k a)) -> keeps proj (bind m k).
Proof.
  intros Hm Hk rt w. unfold bind.
  specialize (Hm rt w).
  destruct (m rt w) as [[a|e] w1]; simpl in Hm.
  - rewrite Hk. exact Hm.
  - exact Hm.
Qed.

Lemma keeps_ret {T A} (proj : World -> T) (a : A) : keeps proj (ret a).
Proof. intros rt w. reflexivity. Qed.

Lemma keeps_throw {T A} (proj : World -> T) (e : Failure) :
  keeps proj (@throw A e).
Proof. intros rt w. reflexivity. Qed.

Lemma keeps_requireUser {T} (proj : World -> T) (context : ActionAPIContext) :
  keeps proj (requireUser context).
Proof.
  intros rt w. unfold requireUser.
  destruct (localsUser context); reflexivity.
Qed.

Lemma keeps_projection {T U A} (proj : World -> T) (f : T -> U) (m : Action A) :
  keeps proj m -> keeps (fun w => f (proj w)) m.
Proof. intros H rt w. rewrite H. reflexivity. Qed.

Lemma keeps_tables_newDate : keeps tables newDate.
Proof. intros rt w. reflexivity. Qed.

Lemma keeps_tables_randomUUID : keeps tables randomUUID.
Proof. intros rt w. reflexivity. Qed.

Lemma keeps_tables_selectCollections (p : PoemCollections.row -> bool) :
  keeps tables (selectCollections p).
Proof. intros rt w. reflexivity. Qed.

Lemma keeps_tables_selectPoems (p : Poems.row -> bool) :
  keeps tables (selectPoems p).
Proof. intros rt w. reflexivity. Qed.

Lemma keeps_tables_getOwnedCollection (c u : string) :
  keeps tables (getOwnedCollection c u).
Proof.
  unfold getOwnedCollection. apply keeps_bind.
  - apply keeps_tables_selectCollections.
  - intros [|col rest]; [apply keeps_throw | apply keeps_ret].
Qed.

Lemma keeps_poems_insertCollection (r : PoemCollections.row) :
  keeps poems (insertCollection r).
Proof.
  intros rt w. unfold insertCollection.
  destruct (existsb _ (collections w)); reflexivity.
Qed.

Lemma keeps_poems_updateCollections (f : PoemCollections.row -> PoemCollections.row)
    (p : PoemCollections.row -> bool) :
  keeps poems (updateCollections f p).
Proof. intros rt w. reflexivity. Qed.

Lemma keeps_collections_insertPoem (r : Poems.row) :
  keeps collections (insertPoem r).
Proof.
  intros rt w. unfold insertPoem.
  destruct (existsb _ (poems w)); [reflexivity|].
  destruct (referenceHolds _ _); reflexivity.
Qed.

Lemma keeps_collections_updatePoems (f : Poems.row -> Poems.row)
    (p : Poems.row -> bool) :
  keeps collections (updatePoems f p).
Proof. intros rt w. reflexivity. Qed.

Lemma keeps_collections_deletePoems (p : Poems.row -> bool) :
  keeps collections (deletePoems p).
Proof. intros rt w. reflexivity. Qed.

Lemma keeps_tables_poems {A} (m : Action A) : keeps tables m -> keeps poems m.
Proof. exact (@keeps_projection _ _ _ tables snd m). Qed.

Lemma keeps_tables_collections {A} (m : Action A) :
  keeps tables m -> keeps collections m.
Proof. exact (@keeps_projection _ _ _ tables fst m). Qed.

Create HintDb frame.
#[local] Hint Resolve keeps_ret keeps_throw keeps_requireUser
  keeps_tables_newDate keeps_tables_randomUUID keeps_tables_selectCollections
  keeps_tables_selectPoems keeps_tables_getOwnedCollection
  keeps_poems_insertCollection keeps_poems_updateCollections
  keeps_collections_insertPoem keeps_collections_updatePoems
  keeps_collections_deletePoems keeps_tables_poems keeps_tables_collections
  : frame.

(** Walks down a handler, one bind at a time. *)
Ltac frame :=
  first
    [ solve [auto with frame]
    | apply keeps_bind; [frame | intros ?; frame]
    | match goal with
      | |- keeps _ (match ?x with _ => _ end) => destruct x; frame
      | |- keeps _ (if ?b then _ else _) => destruct b; frame
      end ].

Lemma createCollection_keeps_poems (i : createCollection.Input)
    (context : ActionAPIContext) :
  keeps poems (createCollection.handler i context).
Proof. unfold createCollection.handler. frame. Qed.

Lemma updateCollection_keeps_poems (i : updateCollection.Input)
    (context : ActionAPIContext) :
  keeps poems (updateCollection.handler i context).
Proof. unfold updateCollection.handler. frame. Qed.

Lemma listCollections_keeps_tables (i : listCollections.Input)
    (context : ActionAPIContext) :
  keeps tables (listCollections.handler i context).
Proof. unfold listCollections.handler. frame. Qed.

Lemma listPoems_keeps_tables (i : listPoems.Input) (context : ActionAPIContext) :
  keeps tables (listPoems.handler i context).
Proof. unfold listPoems.handler. cbv zeta. frame. Qed.

Lemma createPoem_keeps_collections (i : createPoem.Input)
    (context : ActionAPIContext) :
  keeps collections (createPoem.handler i context).
Proof. unfold createPoem.handler. frame. Qed.

Lemma updatePoem_keeps_collections (i : updatePoem.Input)
    (context : ActionAPIContext) :
  keeps collections (updatePoem.handler i context).
Proof. unfold updatePoem.handler. frame. Qed.

Lemma deletePoem_keeps_collections (i : deletePoem.Input)
    (context : ActionAPIContext) :
  keeps collections (deletePoem.handler i context).
Proof. unfold deletePoem.handler. frame. Qed.

(** ** What each handler does to the tables, returning or throwing *)

Lemma tables_eq (w0 w : World) :
  tables w0 = tables w -> collections w0 = collections w /\ poems w0 = poems w.
Proof. unfold tables. intros H. inversion H. split; reflexivity. Qed.

Lemma steps_bind {A B} (R : World -> World -> Prop) (m : Action A)
    (k : A -> Action B) :
  (forall w0 w, tables w0 = tables w -> R w w0) ->
  keeps tables m ->
  (forall a, steps R (k a)) ->
  steps R (bind m k).
Proof.
  intros Hrefl Hm Hk rt w0 w E. unfold bind.
  specialize (Hm rt w0).
  destruct (m rt w0) as [[a|e] w1]; simpl in Hm.
  - apply Hk. transitivity (tables w0); [exact Hm | exact E].
  - apply Hrefl. transitivity (tables w0); [exact Hm | exact E].
Qed.

Lemma steps_here {A} (R : World -> World -> Prop) (m : Action A)
    (rt : Runtime) (w : World) :
  steps R m -> R w (snd (m rt w)).
Proof. intros H. apply H. reflexivity. Qed.

Lemma poemsKept_refl (w0 w : World) : tables w0 = tables w -> poemsKept w w0.
Proof. intros E. apply tables_eq in E. left. apply E. Qed.

Lemma collectionsKept_refl (w0 w : World) :
  tables w0 = tables w -> collectionsKept w w0.
Proof. intros E. apply tables_eq in E. left. apply E. Qed.

Lemma sameCollectionIds_refl (w0 w : World) :
  tables w0 = tables w -> sameCollectionIds w w0.
Proof.
  intros E. apply tables_eq in E. unfold sameCollectionIds.
  destruct E as [-> _]. reflexivity.
Qed.

Lemma samePoemIds_refl (w0 w : World) : tables w0 = tables w -> samePoemIds w w0.
Proof.
  intros E. apply tables_eq in E. unfold samePoemIds.
  destruct E as [_ ->]. reflexivity.
Qed.

Ltac step_over Hrefl :=
  apply steps_bind; [exact Hrefl | frame | intros ?].

Lemma createCollection_steps (i : createCollection.Input)
    (context : ActionAPIContext) :
  steps collectionsKept (createCollection.handler i context).
Proof.
  unfold createCollection.handler.
  do 3 step_over collectionsKept_refl.
  intros rt w0 w E. apply tables_eq in E. destruct E as [Ec _].
  unfold bind, insertCollection.
  destruct (existsb _ (collections w0)) eqn:X; simpl.
  - left. exact Ec.
  - right. left. eexists. rewrite <- Ec. split; [reflexivity|].
    apply existsb_id_false in X. exact X.
Qed.

Lemma createPoem_steps (i : createPoem.Input) (context : ActionAPIContext) :
  steps poemsKept (createPoem.handler i context).
Proof.
  unfold createPoem.handler.
  do 4 step_over poemsKept_refl.
  intros rt w0 w E. apply tables_eq in E. destruct E as [_ Ep].
  unfold bind, insertPoem.
  destruct (existsb _ (poems w0)) eqn:X; simpl.
  - left. exact Ep.
  - destruct (referenceHolds _ _); simpl.
    + right. left. eexists. rewrite <- Ep. split; [reflexivity|].
      apply existsb_id_false in X. exact X.
    + left. exact Ep.
Qed.

Lemma deletePoem_steps (i : deletePoem.Input) (context : ActionAPIContext) :
  steps poemsKept (deletePoem.handler i context).
Proof.
  unfold deletePoem.handler.
  step_over poemsKept_refl.
  intros rt w0 w E. apply tables_eq in E. destruct E as [_ Ep].
  unfold bind, deletePoems.
  destruct (Nat.eqb _ 0); simpl; right; right; eexists; rewrite <- Ep; reflexivity.
Qed.

Lemma map_update_ident {A} (ident : A -> string) (f : A -> A) (p : A -> bool)
    (l : list A) :
  (forall a, ident (f a) = ident a) ->
  map ident (map (fun a => if p a then f a else a) l) = map ident l.
Proof.
  intros H. rewrite map_map. apply map_ext.
  intros a. destruct (p a); [apply H | reflexivity].
Qed.

Lemma updateCollection_steps (i : updateCollection.Input)
    (context : ActionAPIContext) :
  steps sameCollectionIds (updateCollection.handler i context).
Proof.
  unfold updateCollection.handler.
  do 3 step_over sameCollectionIds_refl.
  intros rt w0 w E. apply tables_eq in E. destruct E as [Ec _].
  unfold bind, updateCollections, sameCollectionIds. simpl.
  rewrite map_update_ident; [rewrite Ec; reflexivity|].
  intros c. reflexivity.
Qed.

Lemma updatePoem_steps (i : updatePoem.Input) (context : ActionAPIContext) :
  steps samePoemIds (updatePoem.handler i context).
Proof.
  unfold updatePoem.handler.
  do 2 step_over samePoemIds_refl.
  match goal with
  | |- steps _ (match ?found with _ => _ end) => destruct found as [|existing rest]
  end.
  - intros rt w0 w E. simpl. apply samePoemIds_refl. exact E.
  - do 2 step_over samePoemIds_refl.
    intros rt w0 w E. apply tables_eq in E. destruct E as [_ Ep].
    unfold bind, updatePoems, samePoemIds. simpl.
    rewrite map_update_ident; [rewrite Ep; reflexivity|].
    intros r. reflexivity.
Qed.

(** ** Primary keys *)

Lemma NoDup_map_filter {A} (ident : A -> string) (q : A -> bool) (l : list A) :
  NoDup (map ident l) -> NoDup (map ident (filter q l)).
Proof.
  induction l as [|a l IH]; simpl; intros H.
  - constructor.
  - inversion H as [|x xs Hnot Hnd]; subst.
    destruct (q a); simpl.
    + constructor.
      * intros F. apply Hnot. apply in_map_iff in F.
        destruct F as [b [Eb Hb]]. apply filter_In in Hb.
        rewrite <- Eb. apply in_map. apply Hb.
      * apply IH. exact Hnd.
    + apply IH. exact Hnd.
Qed.

Lemma NoDup_map_same {A} (ident : A -> string) (l : list A) (x y : A) :
  NoDup (map ident l) -> In x l -> In y l -> ident x = ident y -> x = y.
Proof.
  induction l as [|a l IH]; simpl; intros H Hx Hy E.
  - destruct Hx.
  - inversion H as [|b bs Hnot Hnd]; subst.
    destruct Hx as [Hx|Hx], Hy as [Hy|Hy].
    + congruence.
    + subst a. exfalso. apply Hnot. rewrite E. apply in_map. exact Hy.
    + subst a. exfalso. apply Hnot. rewrite <- E. apply in_map. exact Hx.
    + apply IH; assumption.
Qed.

Lemma rowsKept_NoDup {A} (ident : A -> string) (l l' : list A) :
  rowsKept ident l l' -> NoDup (map ident l) -> NoDup (map ident l').
Proof.
  intros [E|[[row [E Hnew]]|[q E]]] H; subst l'.
  - exact H.
  - rewrite map_app. apply NoDup_app.
    + exact H.
    + simpl. constructor; [exact (fun F => F) | constructor].
    + intros a Ha [F|[]]. subst a. exact (Hnew Ha).
  - apply NoDup_map_filter. exact H.
Qed.

(** A row of the table after the call that has the identifier of a row of the
    table before it is that row. *)
Lemma rowsKept_same_row {A} (ident : A -> string) (l l' : list A) (p p' : A) :
  rowsKept ident l l' ->
  NoDup (map ident l) ->
  In p l -> In p' l' -> ident p' = ident p -> p' = p.
Proof.
  intros [E|[[row [E Hnew]]|[q E]]] H Hp Hp' Eid; subst l'.
  - exact (NoDup_map_same ident l _ _ H Hp' Hp Eid).
  - apply in_app_or in Hp'. destruct Hp' as [Hp'|[F|[]]].
    + exact (NoDup_map_same ident l _ _ H Hp' Hp Eid).
    + subst row. exfalso. apply Hnew. rewrite Eid. apply in_map. exact Hp.
  - apply filter_In in Hp'. destruct Hp' as [Hp' _].
    exact (NoDup_map_same ident l _ _ H Hp' Hp Eid).
Qed.

(** The result of an action is that of its handler, or the world as it was
    when the schema turns the body down. *)
Lemma defineAction_world {I R} (input : Schema I)
    (handler : I -> ActionAPIContext -> Action R) (P : World -> Prop)
    (body : JsValue) (context : ActionAPIContext) (rt : Runtime) (w : World) :
  P w ->
  (forall i, P (snd (handler i context rt w))) ->
  P (snd (defineAction input handler body context rt w)).
Proof.
  intros Hw Hh. unfold defineAction.
  destruct (input body) as [i|]; [apply Hh | exact Hw].
Qed.

(** Every operation keeps the identifiers of both tables unique. *)
Lemma server_preserves_primaryKeys (op : Operation) (body : JsValue)
    (context : ActionAPIContext) (rt : Runtime) (w : World) :
  primaryKeys w -> primaryKeys (snd (server op body context rt w)).
Proof.
  intros [Hc Hp].
  destruct op; unfold_action; apply defineAction_world;
    try (split; assumption); intros i; split.
  - apply (rowsKept_NoDup (steps_here rt w (createCollection_steps i context)) Hc).
  - rewrite createCollection_keeps_poems. exact Hp.
  - pose proof (steps_here rt w (updateCollection_steps i context)) as E.
    unfold sameCollectionIds in E. rewrite E. exact Hc.
  - rewrite updateCollection_keeps_poems. exact Hp.
  - rewrite (keeps_tables_collections (@listCollections_keeps_tables i context)).
    exact Hc.
  - rewrite (keeps_tables_poems (@listCollections_keeps_tables i context)).
    exact Hp.
  - rewrite createPoem_keeps_collections. exact Hc.
  - apply (rowsKept_NoDup (steps_here rt w (createPoem_steps i context)) Hp).
  - rewrite updatePoem_keeps_collections. exact Hc.
  - pose proof (steps_here rt w (updatePoem_steps i context)) as E.
    unfold samePoemIds in E. rewrite E. exact Hp.
  - rewrite deletePoem_keeps_collections. exact Hc.
  - apply (rowsKept_NoDup (steps_here rt w (deletePoem_steps i context)) Hp).
  - rewrite (keeps_tables_collections (@listPoems_keeps_tables i context)).
    exact Hc.
  - rewrite (keeps_tables_poems (@listPoems_keeps_tables i context)).
    exact Hp.
Qed.

Lemma emptyWorld_primaryKeys : primaryKeys emptyWorld.
Proof. split; constructor. Qed.

(** ** A filed poem stays filed *)

(** updatePoem that throws has changed no table. *)
Lemma updatePoem_thrown (i : updatePoem.Input) (context : ActionAPIContext)
    (rt : Runtime) (w w' : World) (e : Failure) :
  updatePoem.handler i context rt w = (Thrown e, w') ->
  tables w' = tables w.
Proof.
  unfold updatePoem.handler.
  destruct (localsUser context) as [u|] eqn:Hu.
  - rewrite gate_passed with (u := u) by exact Hu.
    unfold bind at 1. unfold selectPoems.
    destruct (filter _ (poems w)) as [|existing rest].
    + intros H. inversion H. reflexivity.
    + unfold bind at 1.
      destruct (updatePoem.collectionId i) as [c|].
      * unfold bind at 1.
        pose proof (keeps_tables_getOwnedCollection c (User.id u) rt
                      (logged (DbSelect TPoems) w)) as K.
        destruct (getOwnedCollection c (User.id u) rt _) as [[col|e0] w0].
        -- unfold bind, newDate, updatePoems. simpl. discriminate.
        -- intros H. inversion H; subst. exact K.
      * unfold bind, newDate, updatePoems. simpl. discriminate.
  - rewrite gate_first by exact Hu. intros H. inversion H. reflexivity.
Qed.

(** Apart from updatePoem, an operation leaves the rows of the poems table
    as they are: it keeps them all, adds one or removes some. *)
Lemma server_poemsKept (op : Operation) (body : JsValue)
    (context : ActionAPIContext) (rt : Runtime) (w : World) :
  op <> UpdatePoem ->
  poemsKept w (snd (server op body context rt w)).
Proof.
  intros Hop.
  destruct op; try contradiction; unfold_action; apply defineAction_world;
    try (left; reflexivity); intros i.
  - left. apply createCollection_keeps_poems.
  - left. apply updateCollection_keeps_poems.
  - left. apply (keeps_tables_poems (@listCollections_keeps_tables i context)).
  - apply (steps_here rt w (createPoem_steps i context)).
  - apply (steps_here rt w (deletePoem_steps i context)).
  - left. apply (keeps_tables_poems (@listPoems_keeps_tables i context)).
Qed.

Lemma operation_eq_dec (a b : Operation) : {a = b} + {a <> b}.
Proof. decide equality. Defined.

(** C10. No operation takes a poem out of its collection. A body whose
    [collectionId] is [null] is turned down by the schema of updatePoem
    before the handler runs. And in a store with unique identifiers, whatever
    the operation, the body and the caller: a poem that had a collection
    before the call and is still there after it has a collection; if that
    collection is another one, the operation was updatePoem and the new
    collection is one that the caller owns. *)
Theorem filed_poem_is_never_unfiled :
  forall (op : Operation) (body : JsValue) (context : ActionAPIContext)
         (rt : Runtime) (w : World),
    primaryKeys w ->
    (forall fields,
        lookupField "collectionId" fields = JsNull ->
        updatePoem.action (JsObject fields) context rt w
        = (Thrown ActionInputError, w))
    /\ (forall p p',
           In p (poems w) ->
           In p' (poems (snd (server op body context rt w))) ->
           Poems.id p' = Poems.id p ->
           Poems.collectionId p <> None ->
           Poems.collectionId p' <> None
           /\ (Poems.collectionId p' <> Poems.collectionId p ->
               op = UpdatePoem
               /\ exists u c,
                   localsUser context = Some u
                   /\ Poems.collectionId p' = Some c
                   /\ owns w (User.id u) c)).
Proof.
  intros op body context rt w [_ Hp]. split.
  - intros fields Hnull.
    unfold updatePoem.action, defineAction, updatePoem.input, z.refine, z.object.
    rewrite Hnull.
    destruct (z.string_min 1 (lookupField "id" fields)); reflexivity.
  - intros p p' Hin Hin' Eid Hfiled.
    assert (Hsame : p' = p -> Poems.collectionId p' <> None
                              /\ (Poems.collectionId p' <> Poems.collectionId p ->
                                  op = UpdatePoem
                                  /\ exists u c,
                                      localsUser context = Some u
                                      /\ Poems.collectionId p' = Some c
                                      /\ owns w (User.id u) c)).
    { intros ->. split; [exact Hfiled | intros F; contradiction F; reflexivity]. }
    destruct (operation_eq_dec op UpdatePoem) as [->|Hop].
    + revert Hin'. unfold server, updatePoem.action, defineAction.
      destruct (updatePoem.input body) as [i|];
        [|intros Hin'; apply Hsame;
          exact (NoDup_map_same Poems.id _ _ _ Hp Hin' Hin Eid)].
      destruct (updatePoem.handler i context rt w) as [[d|e] w'] eqn:H; simpl.
      * apply updatePoem_inv in H; [|exact Hp].
        destruct H as [u [old [before [after
                         [Hu [Hid [_ [Hw [Hw' [_ [_ Hown]]]]]]]]]]].
        rewrite Hw'. intros Hin'.
        apply in_app_or in Hin'. destruct Hin' as [Hb|[Hnew|Ha]].
        -- apply Hsame. apply (NoDup_map_same Poems.id _ _ _ Hp); auto.
           rewrite Hw. apply in_or_app. left. exact Hb.
        -- assert (Hold : In old (poems w))
             by (rewrite Hw; apply in_or_app; right; left; reflexivity).
           assert (Ep : old = p).
           { apply (NoDup_map_same Poems.id _ _ _ Hp); auto.
             rewrite <- Eid, <- Hnew. reflexivity. }
           subst old p'. simpl.
           destruct (updatePoem.collectionId i) as [c|] eqn:Hc.
           ++ split; [discriminate|]. intros _. split; [reflexivity|].
              exists u, c. split; [exact Hu|]. split; [reflexivity|].
              apply Hown. reflexivity.
           ++ split; [exact Hfiled | intros F; contradiction F; reflexivity].
        -- apply Hsame. apply (NoDup_map_same Poems.id _ _ _ Hp); auto.
           rewrite Hw. apply in_or_app. right. right. exact Ha.
      * apply updatePoem_thrown in H. apply tables_eq in H. destruct H as [_ E].
        rewrite E. intros Hin'. apply Hsame.
        exact (NoDup_map_same Poems.id _ _ _ Hp Hin' Hin Eid).
    + apply Hsame.
      apply (@rowsKept_same_row _ Poems.id (poems w)
               (poems (snd (server op body context rt w)))); auto.
      apply server_poemsKept. exact Hop.
Qed.

Lemma filed_poem_is_never_unfiled_witness :
  updatePoem.action
    (JsObject [("id", JsString "uuid-2"); ("collectionId", JsNull)])
    (signedIn alice) sampleRuntime sampleWorld
  = (Thrown ActionInputError, sampleWorld)
  /\ exists p',
      In p' (poems (snd (server UpdatePoem
                           (JsObject [("id", JsString "uuid-2");
                                      ("title", JsString "Pond")])
                           (signedIn alice) sampleRuntime sampleWorld)))
      /\ Poems.title p' = Some "Pond"
      /\ Poems.collectionId p' <> None.
Proof.
  pose (body := JsObject [("id", JsString "uuid-2"); ("title", JsString "Pond")]).
  destruct (@filed_poem_is_never_unfiled UpdatePoem body (signedIn alice)
              sampleRuntime sampleWorld sampleWorld_primaryKeys)
    as [Hnull Hkept].
  split.
  - apply Hnull. reflexivity.
  - pose (p := Poems.mk "uuid-2" (Some "uuid-0") "alice" None None None None None
                 "old pond" None false 1002%Z 1002%Z).
    pose (p' := Poems.mk "uuid-2" (Some "uuid-0") "alice" (Some "Pond") None None
                  None None "old pond" None false 1002%Z 1003%Z).
    exists p'.
    assert (Hin' : In p' (poems (snd (server UpdatePoem body (signedIn alice)
                                        sampleRuntime sampleWorld))))
      by (left; reflexivity).
    split; [exact Hin'|]. split; [reflexivity|].
    apply (Hkept p p').
    + left. reflexivity.
    + exact Hin'.
    + reflexivity.
    + discriminate.
Defined.

(** ** The scenario of two callers *)

(** Bob cannot update Alice's poem. *)
Example scenario_other_caller_not_found :
  fst (updatePoem.action
         (JsObject [("id", JsString "uuid-2"); ("isFavorite", JsBool true)])
         (signedIn bob) sampleRuntime sampleWorld)
  = Thrown poemNotFound.
Proof. reflexivity. Qed.

(** Alice marks her poem as a favourite, and then finds it, alone, among her
    favourites. *)
Example scenario_favourite :
  let marked := updatePoem.action
                  (JsObject [("id", JsString "uuid-2"); ("isFavorite", JsBool true)])
                  (signedIn alice) sampleRuntime sampleWorld in
  let poem := Poems.mk "uuid-2" (Some "uuid-0") "alice" None None None None None
                "old pond" None true 1002%Z 1003%Z in
  fst marked = Ok (DataPoem (Some poem))
  /\ fst (listPoems.action (JsObject [("favoritesOnly", JsBool true)])
            (signedIn alice) sampleRuntime (snd marked))
     = Ok (DataPoems [poem] 1).
Proof. split; reflexivity. Qed.

(** * Further properties of the handlers *)

(** ** An operation that throws has changed no table *)

Lemma keeps_thrownClean {A} (m : Action A) : keeps tables m -> thrownClean m.
Proof.
  intros Hm rt w0 w E e w' H.
  specialize (Hm rt w0). rewrite H in Hm. simpl in Hm.
  transitivity (tables w0); [exact Hm | exact E].
Qed.

Lemma thrownClean_bind {A B} (m : Action A) (k : A -> Action B) :
  keeps tables m -> (forall a, thrownClean (k a)) -> thrownClean (bind m k).
Proof.
  intros Hm Hk rt w0 w E e w'. unfold bind.
  specialize (Hm rt w0).
  destruct (m rt w0) as [[a|e0] w1]; simpl in Hm.
  - apply Hk. transitivity (tables w0); [exact Hm | exact E].
  - intros H. inversion H; subst. transitivity (tables w0); [exact Hm | exact E].
Qed.

Ltac clean_over := apply thrownClean_bind; [frame | intros ?].

Lemma createCollection_thrownClean (i : createCollection.Input)
    (context : ActionAPIContext) :
  thrownClean (createCollection.handler i context).
Proof.
  unfold createCollection.handler. do 3 clean_over.
  intros rt w0 w E e w'. unfold bind, insertCollection.
  destruct (existsb _ (collections w0)); simpl; intros H; inversion H; subst.
  exact E.
Qed.

Lemma createPoem_thrownClean (i : createPoem.Input) (context : ActionAPIContext) :
  thrownClean (createPoem.handler i context).
Proof.
  unfold createPoem.handler. do 4 clean_over.
  intros rt w0 w E e w'. unfold bind, insertPoem.
  destruct (existsb _ (poems w0)); simpl;
    [intros H; inversion H; subst; exact E|].
  destruct (referenceHolds _ _); simpl; intros H; inversion H; subst.
  exact E.
Qed.

Lemma updateCollection_thrownClean (i : updateCollection.Input)
    (context : ActionAPIContext) :
  thrownClean (updateCollection.handler i context).
Proof.
  unfold updateCollection.handler. do 3 clean_over.
  intros rt w0 w E e w'. unfold bind, updateCollections. simpl. discriminate.
Qed.

Lemma updatePoem_thrownClean (i : updatePoem.Input) (context : ActionAPIContext) :
  thrownClean (updatePoem.handler i context).
Proof.
  intros rt w0 w E e w' H.
  apply updatePoem_thrown in H. transitivity (tables w0); [exact H | exact E].
Qed.

Lemma deletePoem_thrownClean (i : deletePoem.Input) (context : ActionAPIContext) :
  thrownClean (deletePoem.handler i context).
Proof.
  unfold deletePoem.handler. clean_over.
  intros rt w0 w E e w'. unfold bind, deletePoems.
  destruct (filter _ (poems w0)) as [|x rest] eqn:F; simpl.
  - intros H. inversion H; subst. rewrite <- E.
    unfold tables. simpl. rewrite filter_negb_all; [reflexivity|].
    apply filter_nil_false. exact F.
  - discriminate.
Qed.

Lemma server_thrown_tables (op : Operation) (body : JsValue)
    (context : ActionAPIContext) (rt : Runtime) (w w' : World) (e : Failure) :
  server op body context rt w = (Thrown e, w') -> tables w' = tables w.
Proof.
  destruct op; unfold_action; unfold defineAction;
    match goal with
    | |- context [match ?parsed with _ => _ end] => destruct parsed as [i|]
    end;
    try (intros H; inversion H; reflexivity); intros H.
  - exact (createCollection_thrownClean i context rt eq_refl H).
  - exact (updateCollection_thrownClean i context rt eq_refl H).
  - exact (keeps_thrownClean (@listCollections_keeps_tables i context) rt eq_refl H).
  - exact (createPoem_thrownClean i context rt eq_refl H).
  - exact (updatePoem_thrownClean i context rt eq_refl H).
  - exact (deletePoem_thrownClean i context rt eq_refl H).
  - exact (keeps_thrownClean (@listPoems_keeps_tables i context) rt eq_refl H).
Qed.

(** X1. Whatever the operation, the body and the caller: when the operation
    throws (input error, UNAUTHORIZED, NOT_FOUND or a failure of the insert),
    both tables hold exactly the rows they held before the call. *)
Theorem failed_operation_changes_no_table :
  forall (op : Operation) (body : JsValue) (context : ActionAPIContext)
         (rt : Runtime) (w w' : World) (e : Failure),
    server op body context rt w = (Thrown e, w') ->
    collections w' = collections w /\ poems w' = poems w.
Proof.
  intros op body context rt w w' e H.
  apply tables_eq. exact (server_thrown_tables _ _ _ _ _ H).
Qed.

Lemma failed_operation_witness :
  collections (snd (server DeletePoem (JsObject [("id", JsString "uuid-2")])
                      (signedIn bob) sampleRuntime sampleWorld))
  = collections sampleWorld
  /\ poems (snd (server DeletePoem (JsObject [("id", JsString "uuid-2")])
                   (signedIn bob) sampleRuntime sampleWorld))
     = poems sampleWorld.
Proof.
  apply (@failed_operation_changes_no_table DeletePoem
           (JsObject [("id", JsString "uuid-2")]) (signedIn bob) sampleRuntime
           sampleWorld _ poemNotFound).
  reflexivity.
Defined.

(** ** Identifiers stay unique along any sequence of requests *)

Lemma serve_cons (r : Request) (rest : list Request) (rt : Runtime) (w : World) :
  serve (r :: rest) rt w = serve rest rt (snd (call r rt w)).
Proof. reflexivity. Qed.

Lemma serve_primaryKeys (requests : list Request) (rt : Runtime) (w : World) :
  primaryKeys w -> primaryKeys (serve requests rt w).
Proof.
  revert w. induction requests as [|r rest IH]; intros w H.
  - exact H.
  - rewrite serve_cons. apply IH. apply server_preserves_primaryKeys. exact H.
Qed.

(** X2. Starting from the empty store, after any sequence of requests
    (any operations, bodies and callers, signed in or not) no two collections
    share their id and no two poems share theirs. *)
Theorem reachable_store_has_unique_ids :
  forall (requests : list Request) (rt : Runtime),
    NoDup (map PoemCollections.id (collections (serve requests rt emptyWorld)))
    /\ NoDup (map Poems.id (poems (serve requests rt emptyWorld))).
Proof.
  intros requests rt.
  exact (serve_primaryKeys requests rt emptyWorld_primaryKeys).
Qed.

(** ** A caller cannot touch the rows of another user *)

Lemma filter_filter_weaker {A} (q r : A -> bool) (l : list A) :
  (forall x, q x = true -> r x = true) ->
  filter q (filter r l) = filter q l.
Proof.
  intros H. induction l as [|a l IH]; simpl.
  - reflexivity.
  - destruct (r a) eqn:R; simpl.
    + rewrite IH. reflexivity.
    + destruct (q a) eqn:Q; [|exact IH].
      apply H in Q. rewrite Q in R. discriminate.
Qed.

(** What deletePoem does to the tables, for a signed-in caller. *)
Lemma deletePoem_effect (i : deletePoem.Input) (context : ActionAPIContext)
    (u : User.t) (rt : Runtime) (w : World) :
  localsUser context = Some u ->
  poems (snd (deletePoem.handler i context rt w))
  = filter (fun p => negb ((Poems.id p =? deletePoem.id i)
                           && (Poems.userId p =? User.id u)))
      (poems w)
  /\ collections (snd (deletePoem.handler i context rt w)) = collections w.
Proof.
  intros Hu. unfold deletePoem.handler.
  rewrite gate_passed with (u := u) by exact Hu.
  unfold bind, deletePoems.
  destruct (Nat.eqb _ 0); simpl; split; reflexivity.
Qed.

Lemma others_skip_mine {A} (owner : A -> string) (u : string)
    (before after : list A) (old new : A) :
  owner old = u -> owner new = u ->
  filter (fun a => negb (owner a =? u)) (before ++ new :: after)
  = filter (fun a => negb (owner a =? u)) (before ++ old :: after).
Proof.
  intros Ho Hn. rewrite !filter_app. simpl.
  rewrite Ho, Hn, String.eqb_refl. reflexivity.
Qed.

Lemma others_skip_added {A} (owner : A -> string) (u : string)
    (l : list A) (new : A) :
  owner new = u ->
  filter (fun a => negb (owner a =? u)) (l ++ [new])
  = filter (fun a => negb (owner a =? u)) l.
Proof.
  intros Hn. rewrite filter_app. simpl.
  rewrite Hn, String.eqb_refl. simpl. apply app_nil_r.
Qed.

(** X3. In a store with unique identifiers, an operation called by a
    signed-in user, whatever it is and whatever its body, leaves the rows of
    every other user as they were, in both tables: none is changed, removed
    or added. *)
Theorem other_users_rows_are_untouched :
  forall (op : Operation) (body : JsValue) (context : ActionAPIContext)
         (rt : Runtime) (w : World) (u : User.t),
    primaryKeys w ->
    localsUser context = Some u ->
    othersCollections (User.id u) (snd (server op body context rt w))
    = othersCollections (User.id u) w
    /\ othersPoems (User.id u) (snd (server op body context rt w))
       = othersPoems (User.id u) w.
Proof.
  intros op body context rt w u [Hc Hp] Hu.
  unfold othersCollections, othersPoems.
  destruct (server op body context rt w) as [[d|e] w'] eqn:H; simpl.
  2: { apply server_thrown_tables in H. apply tables_eq in H.
       destruct H as [-> ->]. split; reflexivity. }
  revert H.
  destruct op; unfold_action; unfold defineAction;
    match goal with
    | |- context [match ?parsed with _ => _ end] => destruct parsed as [i|]
    end;
    try discriminate; intros H.
  - apply createCollection_inv in H. destruct H as [u0 [Hu0 H]].
    cbv zeta in H. destruct H as [_ [Ec [Ep _]]].
    rewrite Hu in Hu0. inversion Hu0; subst u0.
    rewrite Ec, Ep. split; [|reflexivity].
    apply others_skip_added. reflexivity.
  - apply updateCollection_inv in H; [|exact Hc].
    destruct H as [u0 [old [before [after [Hu0 [_ [Ho [Ew [Ew' [_ Ep]]]]]]]]]].
    rewrite Hu in Hu0. inversion Hu0; subst u0.
    rewrite Ew, Ew', Ep. split; [|reflexivity].
    apply others_skip_mine; [exact Ho | exact Ho].
  - pose proof (@listCollections_keeps_tables i context rt w) as K.
    rewrite H in K. simpl in K. apply tables_eq in K. destruct K as [-> ->].
    split; reflexivity.
  - apply createPoem_inv in H. destruct H as [u0 [Hu0 H]].
    cbv zeta in H. destruct H as [_ [Ep [Ec _]]].
    rewrite Hu in Hu0. inversion Hu0; subst u0.
    rewrite Ec, Ep. split; [reflexivity|].
    apply others_skip_added. reflexivity.
  - apply updatePoem_inv in H; [|exact Hp].
    destruct H as [u0 [old [before [after [Hu0 [_ [Ho [Ew [Ew' [_ [Ec _]]]]]]]]]]].
    rewrite Hu in Hu0. inversion Hu0; subst u0.
    rewrite Ew, Ew', Ec. split; [reflexivity|].
    apply others_skip_mine; [exact Ho | exact Ho].
  - destruct (@deletePoem_effect i context u rt w Hu) as [Ep Ec].
    rewrite H in Ep, Ec. simpl in Ep, Ec. rewrite Ep, Ec.
    split; [reflexivity|].
    apply filter_filter_weaker.
    intros p Q. apply negb_true_iff in Q. rewrite Q.
    rewrite andb_false_r. reflexivity.
  - pose proof (@listPoems_keeps_tables i context rt w) as K.
    rewrite H in K. simpl in K. apply tables_eq in K. destruct K as [-> ->].
    split; reflexivity.
Qed.

Lemma other_users_rows_witness :
  othersCollections "alice"
    (snd (server DeletePoem (JsObject [("id", JsString "uuid-2")])
            (signedIn alice) sampleRuntime sampleWorld))
  = othersCollections "alice" sampleWorld
  /\ othersPoems "bob"
       (snd (server UpdatePoem
               (JsObject [("id", JsString "uuid-2"); ("title", JsString "Mine")])
               (signedIn bob) sampleRuntime sampleWorld))
     = othersPoems "bob" sampleWorld.
Proof.
  split.
  - apply (@other_users_rows_are_untouched DeletePoem
             (JsObject [("id", JsString "uuid-2")]) (signedIn alice)
             sampleRuntime sampleWorld alice sampleWorld_primaryKeys eq_refl).
  - apply (@other_users_rows_are_untouched UpdatePoem
             (JsObject [("id", JsString "uuid-2"); ("title", JsString "Mine")])
             (signedIn bob) sampleRuntime sampleWorld bob
             sampleWorld_primaryKeys eq_refl).
Defined.

(** ** Rows change only through an update by their owner *)

(** Apart from updateCollection, an operation keeps the rows of the
    collections table as they are, or adds one. *)
Lemma server_collectionsKept (op : Operation) (body : JsValue)
    (context : ActionAPIContext) (rt : Runtime) (w : World) :
  op <> UpdateCollection ->
  collectionsKept w (snd (server op body context rt w)).
Proof.
  intros Hop.
  destruct op; try contradiction; unfold_action; apply defineAction_world;
    try (left; reflexivity); intros i.
  - apply (steps_here rt w (createCollection_steps i context)).
  - left. apply (keeps_tables_collections (@listCollections_keeps_tables i context)).
  - left. apply createPoem_keeps_collections.
  - left. apply updatePoem_keeps_collections.
  - left. apply deletePoem_keeps_collections.
  - left. apply (keeps_tables_collections (@listPoems_keeps_tables i context)).
Qed.

(** X4. In a store with unique identifiers, compare a row before an
    operation with the row of the same id after it, in either table: the two
    are equal, unless the operation was the update of that table called by
    the owner of the row; and even then the owner and [createdAt] of the row
    are what they were. *)
Theorem rows_change_only_through_update_by_owner :
  forall (op : Operation) (body : JsValue) (context : ActionAPIContext)
         (rt : Runtime) (w : World),
    primaryKeys w ->
    (forall c c',
        In c (collections w) ->
        In c' (collections (snd (server op body context rt w))) ->
        PoemCollections.id c' = PoemCollections.id c ->
        c' = c
        \/ (op = UpdateCollection
            /\ (exists u, localsUser context = Some u
                          /\ User.id u = PoemCollections.userId c)
            /\ PoemCollections.userId c' = PoemCollections.userId c
            /\ PoemCollections.createdAt c' = PoemCollections.createdAt c))
    /\ (forall p p',
           In p (poems w) ->
           In p' (poems (snd (server op body context rt w))) ->
           Poems.id p' = Poems.id p ->
           p' = p
           \/ (op = UpdatePoem
               /\ (exists u, localsUser context = Some u
                             /\ User.id u = Poems.userId p)
               /\ Poems.userId p' = Poems.userId p
               /\ Poems.createdAt p' = Poems.createdAt p)).
Proof.
  intros op body context rt w [Hc Hp]. split.
  - intros c c' Hin Hin' Eid.
    destruct (operation_eq_dec op UpdateCollection) as [->|Hop].
    + revert Hin'. unfold server, updateCollection.action, defineAction.
      destruct (updateCollection.input body) as [i|];
        [|intros Hin'; left;
          exact (NoDup_map_same PoemCollections.id _ _ _ Hc Hin' Hin Eid)].
      destruct (updateCollection.handler i context rt w) as [[d|e] w'] eqn:H; simpl.
      * apply updateCollection_inv in H; [|exact Hc].
        destruct H as [u [old [before [after [Hu [_ [Ho [Hw [Hw' _]]]]]]]]].
        rewrite Hw'. intros Hin'.
        apply in_app_or in Hin'. destruct Hin' as [Hb|[Hnew|Ha]].
        -- left. apply (NoDup_map_same PoemCollections.id _ _ _ Hc); auto.
           rewrite Hw. apply in_or_app. left. exact Hb.
        -- assert (Hold : In old (collections w))
             by (rewrite Hw; apply in_or_app; right; left; reflexivity).
           assert (Ec : old = c).
           { apply (NoDup_map_same PoemCollections.id _ _ _ Hc); auto.
             rewrite <- Eid, <- Hnew. reflexivity. }
           subst old c'. right. split; [reflexivity|].
           split; [exists u; auto|]. split; reflexivity.
        -- left. apply (NoDup_map_same PoemCollections.id _ _ _ Hc); auto.
           rewrite Hw. apply in_or_app. right. right. exact Ha.
      * apply (updateCollection_thrownClean i context rt eq_refl) in H.
        apply tables_eq in H. destruct H as [E _].
        rewrite E. intros Hin'. left.
        exact (NoDup_map_same PoemCollections.id _ _ _ Hc Hin' Hin Eid).
    + left.
      apply (@rowsKept_same_row _ PoemCollections.id (collections w)
               (collections (snd (server op body context rt w)))); auto.
      apply server_collectionsKept. exact Hop.
  - intros p p' Hin Hin' Eid.
    destruct (operation_eq_dec op UpdatePoem) as [->|Hop].
    + revert Hin'. unfold server, updatePoem.action, defineAction.
      destruct (updatePoem.input body) as [i|];
        [|intros Hin'; left;
          exact (NoDup_map_same Poems.id _ _ _ Hp Hin' Hin Eid)].
      destruct (updatePoem.handler i context rt w) as [[d|e] w'] eqn:H; simpl.
      * apply updatePoem_inv in H; [|exact Hp].
        destruct H as [u [old [before [after [Hu [_ [Ho [Hw [Hw' _]]]]]]]]].
        rewrite Hw'. intros Hin'.
        apply in_app_or in Hin'. destruct Hin' as [Hb|[Hnew|Ha]].
        -- left. apply (NoDup_map_same Poems.id _ _ _ Hp); auto.
           rewrite Hw. apply in_or_app. left. exact Hb.
        -- assert (Hold : In old (poems w))
             by (rewrite Hw; apply in_or_app; right; left; reflexivity).
           assert (Ep : old = p).
           { apply (NoDup_map_same Poems.id _ _ _ Hp); auto.
             rewrite <- Eid, <- Hnew. reflexivity. }
           subst old p'. right. split; [reflexivity|].
           split; [exists u; auto|]. split; reflexivity.
        -- left. apply (NoDup_map_same Poems.id _ _ _ Hp); auto.
           rewrite Hw. apply in_or_app. right. right. exact Ha.
      * apply updatePoem_thrown in H. apply tables_eq in H. destruct H as [_ E].
        rewrite E. intros Hin'. left.
        exact (NoDup_map_same Poems.id _ _ _ Hp Hin' Hin Eid).
    + left.
      apply (@rowsKept_same_row _ Poems.id (poems w)
               (poems (snd (server op body context rt w)))); auto.
      apply server_poemsKept. exact Hop.
Qed.

Lemma rows_change_only_through_update_witness :
  titledPoem = samplePoem
  \/ (UpdatePoem = UpdatePoem
      /\ (exists u, localsUser (signedIn alice) = Some u
                    /\ User.id u = Poems.userId samplePoem)
      /\ Poems.userId titledPoem = Poems.userId samplePoem
      /\ Poems.createdAt titledPoem = Poems.createdAt samplePoem).
Proof.
  apply (proj2 (@rows_change_only_through_update_by_owner UpdatePoem titleBody
                  (signedIn alice) sampleRuntime sampleWorld
                  sampleWorld_primaryKeys)).
  - left. reflexivity.
  - left. reflexivity.
  - reflexivity.
Defined.

(** ** What is never removed *)

Lemma ids_grow_refl {A} (ident : A -> string) (l l' : list A) :
  l' = l -> exists added, map ident l' = map ident l ++ added.
Proof. intros ->. exists []. symmetry. apply app_nil_r. Qed.

(** X5. No operation removes a collection, and no operation other than
    deletePoem removes a poem: the identifiers of the table after the call
    are those before it, in the same order, possibly followed by new ones. *)
Theorem rows_are_removed_only_by_deletePoem :
  forall (op : Operation) (body : JsValue) (context : ActionAPIContext)
         (rt : Runtime) (w : World),
    (exists added,
        map PoemCollections.id (collections (snd (server op body context rt w)))
        = map PoemCollections.id (collections w) ++ added)
    /\ (op <> DeletePoem ->
        exists added,
          map Poems.id (poems (snd (server op body context rt w)))
          = map Poems.id (poems w) ++ added).
Proof.
  intros op body context rt w. split.
  - destruct op; unfold_action; apply defineAction_world;
      try (apply ids_grow_refl; reflexivity); intros i.
    + destruct (createCollection.handler i context rt w) as [[d|e] w'] eqn:H; simpl.
      * apply createCollection_inv in H. destruct H as [u [_ H]].
        cbv zeta in H. destruct H as [_ [Ec _]].
        rewrite Ec, map_app. eexists. reflexivity.
      * apply (createCollection_thrownClean i context rt eq_refl) in H.
        apply tables_eq in H. apply ids_grow_refl. apply H.
    + pose proof (steps_here rt w (updateCollection_steps i context)) as E.
      unfold sameCollectionIds in E. rewrite E. exists []. symmetry. apply app_nil_r.
    + apply ids_grow_refl.
      apply (keeps_tables_collections (@listCollections_keeps_tables i context)).
    + apply ids_grow_refl. apply createPoem_keeps_collections.
    + apply ids_grow_refl. apply updatePoem_keeps_collections.
    + apply ids_grow_refl. apply deletePoem_keeps_collections.
    + apply ids_grow_refl.
      apply (keeps_tables_collections (@listPoems_keeps_tables i context)).
  - intros Hop.
    destruct op; try contradiction; unfold_action; apply defineAction_world;
      try (apply ids_grow_refl; reflexivity); intros i.
    + apply ids_grow_refl. apply createCollection_keeps_poems.
    + apply ids_grow_refl. apply updateCollection_keeps_poems.
    + apply ids_grow_refl.
      apply (keeps_tables_poems (@listCollections_keeps_tables i context)).
    + destruct (createPoem.handler i context rt w) as [[d|e] w'] eqn:H; simpl.
      * apply createPoem_inv in H. destruct H as [u [_ H]].
        cbv zeta in H. destruct H as [_ [Ep _]].
        rewrite Ep, map_app. eexists. reflexivity.
      * apply (createPoem_thrownClean i context rt eq_refl) in H.
        apply tables_eq in H. apply ids_grow_refl. apply H.
    + pose proof (steps_here rt w (updatePoem_steps i context)) as E.
      unfold samePoemIds in E. rewrite E. exists []. symmetry. apply app_nil_r.
    + apply ids_grow_refl.
      apply (keeps_tables_poems (@listPoems_keeps_tables i context)).
Qed.

Lemma rows_are_removed_only_witness :
  exists added,
    map Poems.id (poems (snd (server CreatePoem forgedPoemBody (signedIn bob)
                                sampleRuntime sampleWorld)))
    = map Poems.id (poems sampleWorld) ++ added.
Proof.
  apply (proj2 (@rows_are_removed_only_by_deletePoem CreatePoem forgedPoemBody
                  (signedIn bob) sampleRuntime sampleWorld)).
  discriminate.
Defined.

(** ** Poems are filed under collections of their owner *)

Lemma referencesOwned_tables (w w' : World) :
  tables w' = tables w -> referencesOwned w -> referencesOwned w'.
Proof.
  intros E H p c Hin Hc Hne. apply tables_eq in E. destruct E as [Ec Ep].
  rewrite Ep in Hin.
  apply (@owns_collections w w'); [symmetry; exact Ec|].
  exact (H p c Hin Hc Hne).
Qed.

Lemma owns_more (w w' : World) (u c : string) :
  (forall col, In col (collections w) ->
     exists col', In col' (collections w')
                  /\ PoemCollections.id col' = PoemCollections.id col
                  /\ PoemCollections.userId col' = PoemCollections.userId col) ->
  owns w u c -> owns w' u c.
Proof.
  intros H [col [Hin [Hid Hu]]].
  destruct (H col Hin) as [col' [Hin' [Hid' Hu']]].
  exists col'. split; [exact Hin'|]. split; congruence.
Qed.

(** A successful createPoem with a collection identifier other than the
    empty string went through the ownership check. *)
Lemma createPoem_ok_owns (i : createPoem.Input) (context : ActionAPIContext)
    (u : User.t) (rt : Runtime) (w w' : World) (d : Data) (c : string) :
  localsUser context = Some u ->
  createPoem.handler i context rt w = (Ok d, w') ->
  createPoem.collectionId i = Some c ->
  c <> "" ->
  owns w (User.id u) c.
Proof.
  intros Hu H Hc Hne. revert H. unfold createPoem.handler.
  rewrite gate_passed with (u := u) by exact Hu.
  rewrite Hc, (truthy_nonempty Hne).
  unfold bind at 1. unfold bind at 1.
  destruct (getOwnedCollection c (User.id u) rt w) as [[col|e] w0] eqn:G.
  - intros _. apply getOwnedCollection_inv in G.
    destruct G as [_ [Hin [Hid Hown]]]. exists col. auto.
  - discriminate.
Qed.

Lemma server_preserves_referencesOwned (op : Operation) (body : JsValue)
    (context : ActionAPIContext) (rt : Runtime) (w : World) :
  primaryKeys w ->
  referencesOwned w ->
  referencesOwned (snd (server op body context rt w)).
Proof.
  intros [Hc Hp] Href.
  destruct (server op body context rt w) as [[d|e] w'] eqn:H; simpl.
  2: { apply server_thrown_tables in H.
       exact (referencesOwned_tables H Href). }
  revert H.
  destruct op; unfold_action; unfold defineAction;
    match goal with
    | |- context [match ?parsed with _ => _ end] => destruct parsed as [i|]
    end;
    try discriminate; intros H.
  - apply createCollection_inv in H. destruct H as [u [_ H]].
    cbv zeta in H. destruct H as [_ [Ec [Ep _]]].
    intros p c Hin Hcid Hne. rewrite Ep in Hin.
    apply (@owns_more w w'); [|exact (Href p c Hin Hcid Hne)].
    intros col Hcol. exists col. rewrite Ec.
    split; [apply in_or_app; left; exact Hcol|]. split; reflexivity.
  - apply updateCollection_inv in H; [|exact Hc].
    destruct H as [u [old [before [after [_ [_ [_ [Ew [Ew' [_ Ep]]]]]]]]]].
    intros p c Hin Hcid Hne. rewrite Ep in Hin.
    apply (@owns_more w w'); [|exact (Href p c Hin Hcid Hne)].
    intros col Hcol. rewrite Ew in Hcol. rewrite Ew'.
    apply in_app_or in Hcol. destruct Hcol as [Hb|[Ho|Ha]].
    + exists col. split; [apply in_or_app; left; exact Hb|]. split; reflexivity.
    + subst col. eexists.
      split; [apply in_or_app; right; left; reflexivity|]. split; reflexivity.
    + exists col. split; [apply in_or_app; right; right; exact Ha|].
      split; reflexivity.
  - pose proof (@listCollections_keeps_tables i context rt w) as K.
    rewrite H in K. exact (referencesOwned_tables K Href).
  - destruct (localsUser context) as [u|] eqn:Hu.
    2: { unfold createPoem.handler in H. rewrite gate_first in H by exact Hu.
         discriminate. }
    pose proof (fun c => @createPoem_ok_owns i context u rt w w' d c Hu H)
      as Hchecked.
    apply createPoem_inv in H. destruct H as [u0 [Hu0 H]].
    cbv zeta in H. destruct H as [_ [Ep [Ec _]]].
    rewrite Hu in Hu0. inversion Hu0; subst u0.
    intros p c Hin Hcid Hne. rewrite Ep in Hin.
    apply (@owns_collections w w'); [symmetry; exact Ec|].
    apply in_app_or in Hin. destruct Hin as [Hin|[Hnew|[]]].
    + exact (Href p c Hin Hcid Hne).
    + subst p. simpl in Hcid |- *. exact (Hchecked c Hcid Hne).
  - apply updatePoem_inv in H; [|exact Hp].
    destruct H as [u [old [before [after [_ [_ [Ho [Ew [Ew' [_ [Ec Hown]]]]]]]]]]].
    intros p c Hin Hcid Hne. rewrite Ew' in Hin.
    apply (@owns_collections w w'); [symmetry; exact Ec|].
    apply in_app_or in Hin. destruct Hin as [Hb|[Hnew|Ha]].
    + apply (Href p c); auto. rewrite Ew. apply in_or_app. left. exact Hb.
    + subst p. simpl in Hcid |- *. rewrite Ho.
      destruct (updatePoem.collectionId i) as [c0|] eqn:Hc0.
      * inversion Hcid; subst c0. apply Hown. reflexivity.
      * rewrite <- Ho. apply (Href old c); auto.
        rewrite Ew. apply in_or_app. right. left. reflexivity.
    + apply (Href p c); auto. rewrite Ew. apply in_or_app. right. right. exact Ha.
  - destruct (localsUser context) as [u|] eqn:Hu.
    2: { unfold deletePoem.handler in H. rewrite gate_first in H by exact Hu.
         discriminate. }
    destruct (@deletePoem_effect i context u rt w Hu) as [Ep Ec].
    rewrite H in Ep, Ec. simpl in Ep, Ec.
    intros p c Hin Hcid Hne.
    apply (@owns_collections w w'); [symmetry; exact Ec|].
    apply (Href p c); auto.
    rewrite Ep in Hin. apply filter_In in Hin. apply Hin.
  - pose proof (@listPoems_keeps_tables i context rt w) as K.
    rewrite H in K. exact (referencesOwned_tables K Href).
Qed.

Lemma serve_invariants (requests : list Request) (rt : Runtime) (w : World) :
  primaryKeys w -> referencesOwned w ->
  primaryKeys (serve requests rt w) /\ referencesOwned (serve requests rt w).
Proof.
  revert w. induction requests as [|r rest IH]; intros w Hk Href.
  - split; assumption.
  - rewrite serve_cons. apply IH.
    + apply server_preserves_primaryKeys. exact Hk.
    + apply server_preserves_referencesOwned; assumption.
Qed.

(** X6. Starting from the empty store, after any sequence of requests:
    every stored poem whose [collectionId] is a string other than the empty
    one is filed under a collection that exists and belongs to the owner of
    the poem. *)
Theorem stored_poems_are_filed_under_own_collections :
  forall (requests : list Request) (rt : Runtime) (p : Poems.row) (c : string),
    In p (poems (serve requests rt emptyWorld)) ->
    Poems.collectionId p = Some c ->
    c <> "" ->
    owns (serve requests rt emptyWorld) (Poems.userId p) c.
Proof.
  intros requests rt.
  apply (serve_invariants requests rt emptyWorld_primaryKeys).
  intros p c [].
Qed.

Lemma stored_poems_are_filed_witness :
  owns (serve sampleRequests sampleRuntime emptyWorld) "alice" "uuid-0".
Proof.
  apply (@stored_poems_are_filed_under_own_collections
           sampleRequests sampleRuntime samplePoem "uuid-0").
  - left. reflexivity.
  - reflexivity.
  - discriminate.
Defined.

(** ** When the updates succeed, and how they fail *)

Lemma filter_has {A} (p : A -> bool) (l : list A) (x : A) :
  In x l -> p x = true -> exists y rest, filter p l = y :: rest.
Proof.
  intros Hin Hp.
  destruct (filter p l) as [|y rest] eqn:F.
  - apply filter_nil_false with (x := x) in F; [|exact Hin].
    rewrite F in Hp. discriminate.
  - exists y, rest. reflexivity.
Qed.

(** X7. updateCollection called by a signed-in user succeeds exactly when
    the caller owns the collection named by [id]: then it returns a row with
    that id; otherwise it throws the collection NOT_FOUND error after one
    statement, the ownership query, and no update is issued. *)
Theorem updateCollection_succeeds_when_owned :
  forall (rt : Runtime) (w : World) (context : ActionAPIContext) (u : User.t)
         (i : updateCollection.Input),
    localsUser context = Some u ->
    (owns w (User.id u) (updateCollection.id i) ->
     exists row w',
       updateCollection.handler i context rt w = (Ok (DataCollection (Some row)), w')
       /\ PoemCollections.id row = updateCollection.id i)
    /\ (~ owns w (User.id u) (updateCollection.id i) ->
        updateCollection.handler i context rt w
        = (Thrown collectionNotFound, logged (DbSelect TPoemCollections) w)).
Proof.
  intros rt w context u i Hu. split; intros Hown.
  - unfold updateCollection.handler.
    rewrite gate_passed with (u := u) by exact Hu.
    destruct (getOwnedCollection_found rt Hown) as [col G].
    unfold bind at 1. rewrite G.
    apply getOwnedCollection_inv in G. destruct G as [_ [Hin [Hid _]]].
    unfold bind, newDate, updateCollections. simpl.
    destruct (@filter_has _ (fun c => PoemCollections.id c =? updateCollection.id i)
                (collections w) col Hin) as [y [rest F]].
    { apply String.eqb_eq. exact Hid. }
    rewrite F. simpl. eexists. eexists. split; [reflexivity|]. simpl.
    apply filter_head in F. destruct F as [_ F]. apply String.eqb_eq. exact F.
  - unfold updateCollection.handler.
    rewrite gate_passed with (u := u) by exact Hu.
    unfold bind. rewrite (getOwnedCollection_missing rt Hown). reflexivity.
Qed.

Lemma updateCollection_succeeds_witness :
  (exists row w',
      updateCollection.handler
        (updateCollection.mkInput "uuid-0" None (Some "Haiku") None None)
        (signedIn alice) sampleRuntime sampleWorld
      = (Ok (DataCollection (Some row)), w')
      /\ PoemCollections.id row = "uuid-0")
  /\ updateCollection.handler
       (updateCollection.mkInput "uuid-0" None (Some "Haiku") None None)
       (signedIn bob) sampleRuntime sampleWorld
     = (Thrown collectionNotFound, logged (DbSelect TPoemCollections) sampleWorld).
Proof.
  split.
  - apply (proj1 (@updateCollection_succeeds_when_owned sampleRuntime sampleWorld
                    (signedIn alice) alice
                    (updateCollection.mkInput "uuid-0" None (Some "Haiku") None None)
                    eq_refl)).
    eexists. split; [left; reflexivity|]. split; reflexivity.
  - apply (proj2 (@updateCollection_succeeds_when_owned sampleRuntime sampleWorld
                    (signedIn bob) bob
                    (updateCollection.mkInput "uuid-0" None (Some "Haiku") None None)
                    eq_refl)).
    intros [col [Hin [Hid Hu]]]. simpl in Hin.
    destruct Hin as [E|[E|[]]]; subst col; simpl in Hid, Hu; discriminate.
Defined.

(** X8. updatePoem called by a signed-in user looks for the poem first.
    When the caller owns no poem with the given id, it throws the poem
    NOT_FOUND error after one statement, the query on the poems table,
    whatever [collectionId] says: the collections table is not even read.
    When the caller owns the poem but not the collection given, it throws the
    collection NOT_FOUND error after the two queries. In the remaining case
    (the poem is owned, and so is the collection when one is given) it
    succeeds and returns a row with the given id. *)
Theorem updatePoem_checks_poem_then_collection :
  forall (rt : Runtime) (w : World) (context : ActionAPIContext) (u : User.t)
         (i : updatePoem.Input),
    localsUser context = Some u ->
    (~ ownsPoem w (User.id u) (updatePoem.id i) ->
     updatePoem.handler i context rt w
     = (Thrown poemNotFound, logged (DbSelect TPoems) w))
    /\ (ownsPoem w (User.id u) (updatePoem.id i) ->
        forall c,
          updatePoem.collectionId i = Some c ->
          ~ owns w (User.id u) c ->
          updatePoem.handler i context rt w
          = (Thrown collectionNotFound,
             logged (DbSelect TPoemCollections) (logged (DbSelect TPoems) w)))
    /\ (ownsPoem w (User.id u) (updatePoem.id i) ->
        (forall c, updatePoem.collectionId i = Some c -> owns w (User.id u) c) ->
        exists row w',
          updatePoem.handler i context rt w = (Ok (DataPoem (Some row)), w')
          /\ Poems.id row = updatePoem.id i).
Proof.
  intros rt w context u i Hu.
  pose proof (ownsPoem_filter w (User.id u) (updatePoem.id i)) as Hf.
  split; [|split].
  - intros Hno. unfold updatePoem.handler.
    rewrite gate_passed with (u := u) by exact Hu.
    unfold bind, selectPoems.
    destruct (filter _ (poems w)) as [|x rest] eqn:F; [reflexivity|].
    exfalso. apply Hno. apply Hf. discriminate.
  - intros Hp c Hc Hno. unfold updatePoem.handler.
    rewrite gate_passed with (u := u) by exact Hu.
    unfold bind at 1. unfold selectPoems.
    destruct (filter _ (poems w)) as [|x rest] eqn:F.
    { apply Hf in Hp. contradiction. }
    rewrite Hc. unfold bind.
    rewrite getOwnedCollection_missing; [reflexivity|].
    intros H. apply Hno. revert H. apply owns_collections. reflexivity.
  - intros Hp Hc. unfold updatePoem.handler.
    rewrite gate_passed with (u := u) by exact Hu.
    unfold bind at 1. unfold selectPoems.
    destruct (filter _ (poems w)) as [|x rest] eqn:F.
    { apply Hf in Hp. contradiction. }
    apply filter_head in F. destruct F as [Hin Hx].
    apply andb_true_iff in Hx. destruct Hx as [Hid _].
    destruct (@filter_has _ (fun p => Poems.id p =? updatePoem.id i)
                (poems w) x Hin Hid) as [y [rest' F']].
    assert (Hy : Poems.id y = updatePoem.id i).
    { apply filter_head in F'. destruct F' as [_ F']. apply String.eqb_eq. exact F'. }
    unfold bind at 1.
    destruct (updatePoem.collectionId i) as [c|] eqn:Hci.
    + assert (Hown : owns (logged (DbSelect TPoems) w) (User.id u) c).
      { apply (@owns_collections w); [reflexivity | apply Hc; reflexivity]. }
      destruct (getOwnedCollection_found rt Hown) as [col G].
      unfold bind at 1. rewrite G.
      unfold bind, newDate, updatePoems. simpl. rewrite F'. simpl.
      eexists. eexists. split; [reflexivity|]. exact Hy.
    + unfold bind, newDate, updatePoems. simpl. rewrite F'. simpl.
      eexists. eexists. split; [reflexivity|]. exact Hy.
Qed.

Lemma updatePoem_checks_witness :
  updatePoem.handler
    (updatePoem.mkInput "uuid-2" (Some "uuid-1") None None None None None None None None)
    (signedIn bob) sampleRuntime sampleWorld
  = (Thrown poemNotFound, logged (DbSelect TPoems) sampleWorld)
  /\ updatePoem.handler
       (updatePoem.mkInput "uuid-2" (Some "uuid-1") None None None None None None
          None None)
       (signedIn alice) sampleRuntime sampleWorld
     = (Thrown collectionNotFound,
        logged (DbSelect TPoemCollections) (logged (DbSelect TPoems) sampleWorld))
  /\ exists row w',
      updatePoem.handler
        (updatePoem.mkInput "uuid-2" (Some "uuid-0") None None None None None None
           None None)
        (signedIn alice) sampleRuntime sampleWorld
      = (Ok (DataPoem (Some row)), w')
      /\ Poems.id row = "uuid-2".
Proof.
  assert (Halice : ownsPoem sampleWorld (User.id alice) "uuid-2").
  { exists samplePoem. split; [left; reflexivity|]. split; reflexivity. }
  split; [|split].
  - apply (@updatePoem_checks_poem_then_collection sampleRuntime sampleWorld
             (signedIn bob) bob
             (updatePoem.mkInput "uuid-2" (Some "uuid-1") None None None None None
                None None None) eq_refl).
    intros [p [Hin [_ Hu]]]. simpl in Hin.
    destruct Hin as [E|[]]; subst p; discriminate.
  - apply (proj1 (proj2 (@updatePoem_checks_poem_then_collection sampleRuntime
                           sampleWorld (signedIn alice) alice
                           (updatePoem.mkInput "uuid-2" (Some "uuid-1") None None
                              None None None None None None) eq_refl))
             Halice "uuid-1" eq_refl).
    intros [col [Hin [Hid Hu]]]. simpl in Hin.
    destruct Hin as [E|[E|[]]]; subst col; simpl in Hid, Hu; discriminate.
  - apply (proj2 (proj2 (@updatePoem_checks_poem_then_collection sampleRuntime
                           sampleWorld (signedIn alice) alice
                           (updatePoem.mkInput "uuid-2" (Some "uuid-0") None None
                              None None None None None None) eq_refl))
             Halice).
    intros c E. inversion E; subst c.
    eexists. split; [left; reflexivity|]. split; reflexivity.
Defined.

(** ** Creating rows: when it succeeds and what is stored *)

Lemma existsb_id_new {A} (ident : A -> string) (x : string) (l : list A) :
  ~ In x (map ident l) -> existsb (fun a => ident a =? x) l = false.
Proof.
  intros H. destruct (existsb _ l) eqn:E; [|reflexivity].
  exfalso. apply H. exact (existsb_id_true ident x l E).
Qed.

(** X9. For a signed-in caller, when the identifier drawn from
    [crypto.randomUUID] is not yet in the table and the texts of the row hold
    no NUL character: createCollection succeeds, and createPoem succeeds as
    soon as the collection given, if any, belongs to the caller. The row
    returned is the row appended to the table; it holds the fields of the
    input as they were sent, NULL for each optional text left out, [false]
    for a flag left out, the caller as owner and one clock reading as both
    timestamps. The other table is unchanged. *)
Theorem create_appends_the_row_that_was_sent :
  forall (rt : Runtime) (w : World) (context : ActionAPIContext) (u : User.t),
    localsUser context = Some u ->
    (forall i,
        ~ In (uuidAt rt (uuidCalls w)) (map PoemCollections.id (collections w)) ->
        let now := timeAt rt (dateCalls w) in
        let row := PoemCollections.mk (uuidAt rt (uuidCalls w)) (User.id u)
                     (createCollection.name i) (createCollection.description i)
                     (createCollection.icon i)
                     (orElse (createCollection.isDefault i) false) now now in
        cleanCollection row = true ->
        exists w',
          createCollection.handler i context rt w
          = (Ok (DataCollection (Some row)), w')
          /\ collections w' = collections w ++ [row]
          /\ poems w' = poems w)
    /\ (forall i,
           ~ In (uuidAt rt (uuidCalls w)) (map Poems.id (poems w)) ->
           (forall c, createPoem.collectionId i = Some c -> owns w (User.id u) c) ->
           let now := timeAt rt (dateCalls w) in
           let row := Poems.mk (uuidAt rt (uuidCalls w)) (createPoem.collectionId i)
                        (User.id u) (createPoem.title i) (createPoem.form i)
                        (createPoem.style i) (createPoem.language i)
                        (createPoem.prompt i) (createPoem.body i)
                        (createPoem.notes i)
                        (orElse (createPoem.isFavorite i) false) now now in
           cleanPoem row = true ->
           exists w',
             createPoem.handler i context rt w = (Ok (DataPoem (Some row)), w')
             /\ poems w' = poems w ++ [row]
             /\ collections w' = collections w).
Proof.
  intros rt w context u Hu. split.
  - intros i Hnew. cbv zeta. intros _. unfold createCollection.handler.
    rewrite gate_passed with (u := u) by exact Hu.
    unfold bind, newDate, randomUUID, insertCollection. simpl.
    rewrite (existsb_id_new PoemCollections.id _ _ Hnew). simpl.
    eexists. split; [reflexivity|]. split; reflexivity.
  - intros i Hnew Hown. cbv zeta. intros _. unfold createPoem.handler.
    rewrite gate_passed with (u := u) by exact Hu.
    assert (Href : referenceHolds (createPoem.collectionId i) w = true).
    { destruct (createPoem.collectionId i) as [c|]; [|reflexivity].
      destruct (Hown c eq_refl) as [col [Hin [Hid _]]].
      simpl. apply existsb_exists. exists col. split; [exact Hin|].
      apply String.eqb_eq. exact Hid. }
    assert (Htail : forall w0,
               w0 = w \/ w0 = logged (DbSelect TPoemCollections) w ->
               exists w',
                 (now <- newDate ;;
                  uuid <- randomUUID ;;
                  rows <- insertPoem
                            (Poems.mk uuid (createPoem.collectionId i) (User.id u)
                               (createPoem.title i) (createPoem.form i)
                               (createPoem.style i) (createPoem.language i)
                               (createPoem.prompt i) (createPoem.body i)
                               (createPoem.notes i)
                               (orElse (createPoem.isFavorite i) false) now now) ;;
                  ret (DataPoem (hd_error rows))) rt w0
                 = (Ok (DataPoem
                          (Some (Poems.mk (uuidAt rt (uuidCalls w))
                                   (createPoem.collectionId i) (User.id u)
                                   (createPoem.title i) (createPoem.form i)
                                   (createPoem.style i) (createPoem.language i)
                                   (createPoem.prompt i) (createPoem.body i)
                                   (createPoem.notes i)
                                   (orElse (createPoem.isFavorite i) false)
                                   (timeAt rt (dateCalls w))
                                   (timeAt rt (dateCalls w))))), w')
                 /\ poems w'
                    = poems w
                      ++ [Poems.mk (uuidAt rt (uuidCalls w))
                            (createPoem.collectionId i) (User.id u)
                            (createPoem.title i) (createPoem.form i)
                            (createPoem.style i) (createPoem.language i)
                            (createPoem.prompt i) (createPoem.body i)
                            (createPoem.notes i)
                            (orElse (createPoem.isFavorite i) false)
                            (timeAt rt (dateCalls w)) (timeAt rt (dateCalls w))]
                 /\ collections w' = collections w).
    { intros w0 Hw0.
      assert (E0 : poems w0 = poems w /\ collections w0 = collections w
                   /\ uuidCalls w0 = uuidCalls w /\ dateCalls w0 = dateCalls w).
      { destruct Hw0; subst w0; repeat split. }
      destruct E0 as [Ep [Ec [En Ed]]].
      unfold bind, newDate, randomUUID, insertPoem, referenceHolds. simpl.
      rewrite Ep, Ec, En, Ed.
      rewrite (existsb_id_new Poems.id _ _ Hnew).
      unfold referenceHolds in Href. rewrite Href. simpl.
      eexists. split; [reflexivity|]. simpl. rewrite ?Ep, ?Ec.
      split; reflexivity. }
    unfold bind at 1.
    destruct (createPoem.collectionId i) as [c|] eqn:Hc.
    + destruct (truthy c) eqn:T.
      * destruct (getOwnedCollection_found rt (Hown c eq_refl)) as [col G].
        unfold bind at 1. rewrite G. simpl. apply Htail. right. reflexivity.
      * simpl. apply Htail. left. reflexivity.
    + simpl. apply Htail. left. reflexivity.
Qed.

Lemma create_appends_witness :
  exists w',
    createPoem.handler
      (createPoem.mkInput (Some "uuid-0") (Some "Frog") None None None None
         "frog jumps in" None None)
      (signedIn alice) sampleRuntime sampleWorld
    = (Ok (DataPoem
             (Some (Poems.mk "uuid-3" (Some "uuid-0") "alice" (Some "Frog") None
                      None None None "frog jumps in" None false 1003%Z 1003%Z))),
       w')
    /\ poems w'
       = poems sampleWorld
         ++ [Poems.mk "uuid-3" (Some "uuid-0") "alice" (Some "Frog") None None
               None None "frog jumps in" None false 1003%Z 1003%Z]
    /\ collections w' = collections sampleWorld.
Proof.
  apply (proj2 (@create_appends_the_row_that_was_sent sampleRuntime sampleWorld
                  (signedIn alice) alice eq_refl)
           (createPoem.mkInput (Some "uuid-0") (Some "Frog") None None None None
              "frog jumps in" None None)).
  - simpl. intros [E|[]]. discriminate.
  - intros c E. inversion E; subst c.
    eexists. split; [left; reflexivity|]. split; reflexivity.
  - reflexivity.
Defined.

(** ** Required text *)

Lemma string_min_rejects (v : JsValue) :
  notNonEmptyString v -> z.string_min 1 v = None.
Proof.
  intros H. destruct v; try reflexivity.
  rewrite (H s eq_refl). reflexivity.
Qed.

Ltac skip_keys :=
  repeat match goal with
         | |- context [match z.optional ?s ?v with _ => _ end] =>
             destruct (z.optional s v)
         end.

(** X10. The text an operation requires has to be a string of at least one
    character: the [name] of createCollection, the [body] of createPoem and
    the [id] of updateCollection, updatePoem and deletePoem. When the body of
    the request leaves that key out, or holds there the empty string or
    anything that is not a string, the action throws the input error and the
    world is what it was. *)
Theorem required_text_is_enforced :
  forall (fields : list (string * JsValue)) (context : ActionAPIContext)
         (rt : Runtime) (w : World),
    (notNonEmptyString (lookupField "name" fields) ->
     createCollection.action (JsObject fields) context rt w
     = (Thrown ActionInputError, w))
    /\ (notNonEmptyString (lookupField "body" fields) ->
        createPoem.action (JsObject fields) context rt w
        = (Thrown ActionInputError, w))
    /\ (notNonEmptyString (lookupField "id" fields) ->
        updateCollection.action (JsObject fields) context rt w
        = (Thrown ActionInputError, w)
        /\ updatePoem.action (JsObject fields) context rt w
           = (Thrown ActionInputError, w)
        /\ deletePoem.action (JsObject fields) context rt w
           = (Thrown ActionInputError, w)).
Proof.
  intros fields context rt w. split; [|split]; intros H;
    apply string_min_rejects in H.
  - unfold createCollection.action, defineAction, createCollection.input, z.object.
    rewrite H. reflexivity.
  - unfold createPoem.action, defineAction, createPoem.input, z.object.
    rewrite H. skip_keys; reflexivity.
  - split; [|split].
    + unfold updateCollection.action, defineAction, updateCollection.input,
        z.refine, z.object.
      rewrite H. reflexivity.
    + unfold updatePoem.action, defineAction, updatePoem.input, z.refine, z.object.
      rewrite H. reflexivity.
    + unfold deletePoem.action, defineAction, deletePoem.input, z.object.
      rewrite H. reflexivity.
Qed.

Lemma required_text_witness :
  createCollection.action (JsObject [("name", JsString ""); ("icon", JsString "leaf")])
    (signedIn alice) sampleRuntime sampleWorld
  = (Thrown ActionInputError, sampleWorld)
  /\ createPoem.action (JsObject [("title", JsString "Untitled")])
       (signedIn alice) sampleRuntime sampleWorld
     = (Thrown ActionInputError, sampleWorld)
  /\ deletePoem.action (JsObject [("id", JsNumber 2)])
       (signedIn alice) sampleRuntime sampleWorld
     = (Thrown ActionInputError, sampleWorld).
Proof.
  split; [|split].
  - apply (proj1 (required_text_is_enforced
                    [("name", JsString ""); ("icon", JsString "leaf")]
                    (signedIn alice) sampleRuntime sampleWorld)).
    intros s E. inversion E. reflexivity.
  - apply (proj1 (proj2 (required_text_is_enforced
                           [("title", JsString "Untitled")]
                           (signedIn alice) sampleRuntime sampleWorld))).
    intros s E. discriminate E.
  - apply (proj2 (proj2 (required_text_is_enforced
                           [("id", JsNumber 2)]
                           (signedIn alice) sampleRuntime sampleWorld))).
    intros s E. discriminate E.
Defined.

(** What a successful updatePoem returns and stores, without any assumption
    on the store. *)
Lemma updatePoem_ok (i : updatePoem.Input) (context : ActionAPIContext)
    (u : User.t) (rt : Runtime) (w : World) :
  localsUser context = Some u ->
  ownsPoem w (User.id u) (updatePoem.id i) ->
  (forall c, updatePoem.collectionId i = Some c -> owns w (User.id u) c) ->
  exists x w',
    updatePoem.handler i context rt w
    = (Ok (DataPoem (Some (updatePoem.set i (timeAt rt (dateCalls w)) x))), w')
    /\ In x (poems w)
    /\ Poems.id x = updatePoem.id i
    /\ In (updatePoem.set i (timeAt rt (dateCalls w)) x) (poems w').
Proof.
  intros Hu Hp Hc.
  pose proof (ownsPoem_filter w (User.id u) (updatePoem.id i)) as Hf.
  unfold updatePoem.handler.
  rewrite gate_passed with (u := u) by exact Hu.
  unfold bind at 1. unfold selectPoems.
  destruct (filter _ (poems w)) as [|x0 rest] eqn:F.
  { apply Hf in Hp. contradiction. }
  apply filter_head in F. destruct F as [Hin0 Hx0].
  apply andb_true_iff in Hx0. destruct Hx0 as [Hid0 _].
  destruct (@filter_has _ (fun p => Poems.id p =? updatePoem.id i)
              (poems w) x0 Hin0 Hid0) as [x [rest' F']].
  pose proof (filter_head _ _ F') as [Hin Hx].
  assert (Hstored :
             In (updatePoem.set i (timeAt rt (dateCalls w)) x)
               (map (fun r => if Poems.id r =? updatePoem.id i
                              then updatePoem.set i (timeAt rt (dateCalls w)) r
                              else r) (poems w))).
  { apply in_map_iff. exists x. rewrite Hx. split; [reflexivity|exact Hin]. }
  unfold bind at 1.
  destruct (updatePoem.collectionId i) as [c|] eqn:Hci.
  - assert (Hown : owns (logged (DbSelect TPoems) w) (User.id u) c).
    { apply (@owns_collections w); [reflexivity | apply Hc; reflexivity]. }
    destruct (getOwnedCollection_found rt Hown) as [col G].
    unfold bind at 1. rewrite G.
    unfold bind, newDate, updatePoems. simpl. rewrite F'. simpl.
    exists x. eexists. split; [reflexivity|]. split; [exact Hin|].
    split; [apply String.eqb_eq; exact Hx|]. simpl. exact Hstored.
  - unfold bind, newDate, updatePoems. simpl. rewrite F'. simpl.
    exists x. eexists. split; [reflexivity|]. split; [exact Hin|].
    split; [apply String.eqb_eq; exact Hx|]. simpl. exact Hstored.
Qed.

(** X11. The body of a poem is required to be non-empty when the poem is
    created, but not when it is updated: updatePoem called by the owner of a
    poem with [body] set to the empty string passes the schema, succeeds,
    and returns and stores the poem with an empty body. *)
Theorem updatePoem_accepts_empty_body :
  forall (rt : Runtime) (w : World) (context : ActionAPIContext) (u : User.t)
         (poemId : string),
    localsUser context = Some u ->
    poemId <> "" ->
    ownsPoem w (User.id u) poemId ->
    exists row w',
      updatePoem.action (JsObject [("id", JsString poemId); ("body", JsString "")])
        context rt w
      = (Ok (DataPoem (Some row)), w')
      /\ In row (poems w')
      /\ Poems.id row = poemId
      /\ Poems.body row = "".
Proof.
  intros rt w context u poemId Hu Hne Hp.
  assert (Hparse : updatePoem.input
                     (JsObject [("id", JsString poemId); ("body", JsString "")])
                   = Some (updatePoem.mkInput poemId None None None None None
                             None (Some "") None None)).
  { destruct poemId as [|a s]; [contradiction|reflexivity]. }
  unfold updatePoem.action, defineAction. rewrite Hparse.
  destruct (@updatePoem_ok
              (updatePoem.mkInput poemId None None None None None None (Some "")
                 None None)
              context u rt w Hu Hp)
    as [x [w' [H [_ [Hid Hin]]]]].
  { intros c E. discriminate E. }
  eexists. exists w'. split; [exact H|].
  split; [exact Hin|]. split; [exact Hid|reflexivity].
Qed.

Lemma updatePoem_accepts_empty_body_witness :
  exists row w',
    updatePoem.action (JsObject [("id", JsString "uuid-2"); ("body", JsString "")])
      (signedIn alice) sampleRuntime sampleWorld
    = (Ok (DataPoem (Some row)), w')
    /\ In row (poems w')
    /\ Poems.id row = "uuid-2"
    /\ Poems.body row = "".
Proof.
  apply (@updatePoem_accepts_empty_body sampleRuntime sampleWorld
           (signedIn alice) alice "uuid-2" eq_refl).
  - discriminate.
  - exists samplePoem. split; [left; reflexivity|]. split; reflexivity.
Defined.

(** ** Listing poems *)

Lemma eqNullable_true (column : option string) (value : string) :
  eqNullable column value = true <-> column = Some value.
Proof.
  destruct column as [c|]; simpl.
  - rewrite String.eqb_eq. split; [intros ->; reflexivity | intros E; inversion E; reflexivity].
  - split; discriminate.
Qed.

Lemma truthy_false (s : string) : truthy s = false -> s = "".
Proof.
  unfold truthy. intros H. apply negb_false_iff in H.
  apply String.eqb_eq. exact H.
Qed.

(** Both directions of the description of a listing. *)
Ltac listed :=
  split; intros H;
  repeat match goal with
         | H : _ /\ _ |- _ => destruct H
         end;
  repeat split; auto;
  try (let c0 := fresh "c" in
       let E := fresh "E" in
       let Hn := fresh "Hn" in
       intros c0 E Hn; inversion E; subst; solve [auto | congruence]);
  try congruence.

(** X12. listPoems called by a signed-in user, with a collection filter
    that is left out, empty, or names a collection of the caller: the call
    succeeds, changes no table, and returns the rows of the poems table, each
    once and in the order of the table, that belong to the caller, that are
    filed under the given collection when the filter is a string other than
    the empty one, and that are favourites when [favoritesOnly] is set,
    together with their number. No poem of another user is ever listed. A
    request without body lists like one with neither filter. *)
Theorem listPoems_lists_exactly_the_matching_poems :
  forall (rt : Runtime) (w : World) (context : ActionAPIContext) (u : User.t)
         (cid : option string) (fav : bool),
    localsUser context = Some u ->
    (forall c, cid = Some c -> c <> "" -> owns w (User.id u) c) ->
    (exists w',
        listPoems.handler (Some (listPoems.mkFields cid fav)) context rt w
        = (Ok (DataPoems (filter (isListed (User.id u) cid fav) (poems w))
                 (List.length (filter (isListed (User.id u) cid fav) (poems w)))),
           w')
        /\ collections w' = collections w
        /\ poems w' = poems w)
    /\ (forall p,
           isListed (User.id u) cid fav p = true
           <-> Poems.userId p = User.id u
               /\ (forall c, cid = Some c -> c <> "" ->
                             Poems.collectionId p = Some c)
               /\ (fav = true -> Poems.isFavorite p = true))
    /\ listPoems.handler None context rt w
       = listPoems.handler (Some (listPoems.mkFields None false)) context rt w.
Proof.
  intros rt w context u cid fav Hu Hown. split; [|split; [|reflexivity]].
  - unfold listPoems.handler. rewrite gate_passed with (u := u) by exact Hu.
    cbv zeta. unfold bind at 1.
    destruct cid as [c|].
    + destruct (truthy c) eqn:T.
      * assert (Hne : c <> "") by (intros E; subst c; discriminate T).
        destruct (getOwnedCollection_found rt (Hown c eq_refl Hne)) as [col G].
        unfold bind at 1. rewrite G. simpl.
        unfold bind, selectPoems. simpl.
        apply String.eqb_neq in Hne.
        rewrite (@filter_ext _ (isListed (User.id u) (Some c) fav)
                   (and_ (if fav
                          then [fun p => Poems.userId p =? User.id u;
                                fun p => eqNullable (Poems.collectionId p) c;
                                Poems.isFavorite]
                          else [fun p => Poems.userId p =? User.id u;
                                fun p => eqNullable (Poems.collectionId p) c]))).
        -- destruct fav; eexists; split; [reflexivity | split; reflexivity
                                           | reflexivity | split; reflexivity].
        -- intros p. unfold isListed, and_. rewrite Hne.
           destruct fav; simpl;
             destruct (Poems.userId p =? User.id u),
                      (eqNullable (Poems.collectionId p) c),
                      (Poems.isFavorite p); reflexivity.
      * apply truthy_false in T. subst c. simpl.
        unfold bind, selectPoems. simpl.
        rewrite (@filter_ext _ (isListed (User.id u) (Some "") fav)
                   (and_ (if fav
                          then [fun p => Poems.userId p =? User.id u;
                                Poems.isFavorite]
                          else [fun p => Poems.userId p =? User.id u]))).
        -- destruct fav; eexists; split; [reflexivity | split; reflexivity
                                           | reflexivity | split; reflexivity].
        -- intros p. unfold isListed, and_.
           destruct fav; simpl;
             destruct (Poems.userId p =? User.id u), (Poems.isFavorite p);
             reflexivity.
    + simpl. unfold bind, selectPoems. simpl.
      rewrite (@filter_ext _ (isListed (User.id u) None fav)
                 (and_ (if fav
                        then [fun p => Poems.userId p =? User.id u;
                              Poems.isFavorite]
                        else [fun p => Poems.userId p =? User.id u]))).
      * destruct fav; eexists; split; [reflexivity | split; reflexivity
                                         | reflexivity | split; reflexivity].
      * intros p. unfold isListed, and_.
        destruct fav; simpl;
          destruct (Poems.userId p =? User.id u), (Poems.isFavorite p);
          reflexivity.
  - intros p. unfold isListed. rewrite !andb_true_iff, String.eqb_eq.
    destruct cid as [c|];
      [destruct (c =? "") eqn:Ec;
       [apply String.eqb_eq in Ec; subst c
       |apply String.eqb_neq in Ec; rewrite eqNullable_true]|];
      destruct fav; listed.
Qed.

Lemma listPoems_lists_witness :
  exists w',
    listPoems.handler (Some (listPoems.mkFields (Some "uuid-0") false))
      (signedIn alice) sampleRuntime sampleWorld
    = (Ok (DataPoems [samplePoem] 1), w')
    /\ collections w' = collections sampleWorld
    /\ poems w' = poems sampleWorld.
Proof.
  refine (proj1 (@listPoems_lists_exactly_the_matching_poems sampleRuntime
                   sampleWorld (signedIn alice) alice (Some "uuid-0") false
                   eq_refl _)).
  intros c E _. inversion E; subst c.
  eexists. split; [left; reflexivity|]. split; reflexivity.
Defined.

(** ** A created row and the listings *)

Lemma filter_added {A} (p : A -> bool) (l : list A) (x : A) :
  filter p (l ++ [x]) = filter p l ++ (if p x then [x] else []).
Proof. rewrite filter_app. reflexivity. Qed.

(** X13. After a successful createCollection, the collection created is the
    last item of the list that listCollections gives its creator, after the
    items that were listed before, and the count is one more; the list of
    any other user is what it was. The same holds for createPoem and the
    unfiltered listPoems. *)
Theorem created_row_ends_the_list_of_its_creator :
  forall (rt rt2 : Runtime) (w w' : World) (context : ActionAPIContext)
         (u : User.t) (d : Data),
    localsUser context = Some u ->
    (forall i x,
        createCollection.handler i context rt w = (Ok d, w') ->
        exists row before,
          d = DataCollection (Some row)
          /\ fst (listCollections.handler x context rt2 w)
             = Ok (DataCollections before (List.length before))
          /\ fst (listCollections.handler x context rt2 w')
             = Ok (DataCollections (before ++ [row]) (S (List.length before)))
          /\ (forall context2 v,
                 localsUser context2 = Some v ->
                 User.id v <> User.id u ->
                 fst (listCollections.handler x context2 rt2 w')
                 = fst (listCollections.handler x context2 rt2 w)))
    /\ (forall i,
           createPoem.handler i context rt w = (Ok d, w') ->
           exists row before,
             d = DataPoem (Some row)
             /\ fst (listPoems.handler None context rt2 w)
                = Ok (DataPoems before (List.length before))
             /\ fst (listPoems.handler None context rt2 w')
                = Ok (DataPoems (before ++ [row]) (S (List.length before)))
             /\ (forall context2 v,
                    localsUser context2 = Some v ->
                    User.id v <> User.id u ->
                    fst (listPoems.handler None context2 rt2 w')
                    = fst (listPoems.handler None context2 rt2 w))).
Proof.
  intros rt rt2 w w' context u d Hu. split.
  - intros i x H. apply createCollection_inv in H.
    destruct H as [u0 [Hu0 H]]. cbv zeta in H. destruct H as [Hd [Ec _]].
    rewrite Hu in Hu0. inversion Hu0; subst u0.
    eexists. eexists. split; [exact Hd|].
    unfold listCollections.handler.
    rewrite !gate_passed with (u := u) by exact Hu.
    unfold bind, selectCollections. simpl. rewrite Ec, filter_added. simpl.
    rewrite String.eqb_refl.
    split; [reflexivity|]. split.
    + rewrite length_app. simpl. rewrite Nat.add_1_r. reflexivity.
    + intros context2 v Hv Hne.
      unfold requireUser. rewrite Hv. simpl. rewrite Ec, filter_added. simpl.
      apply String.eqb_neq in Hne. rewrite String.eqb_sym, Hne.
      rewrite app_nil_r. reflexivity.
  - intros i H. apply createPoem_inv in H.
    destruct H as [u0 [Hu0 H]]. cbv zeta in H. destruct H as [Hd [Ep _]].
    rewrite Hu in Hu0. inversion Hu0; subst u0.
    eexists. eexists. split; [exact Hd|].
    unfold listPoems.handler.
    rewrite !gate_passed with (u := u) by exact Hu.
    cbv zeta. unfold bind, selectPoems, and_. simpl.
    rewrite Ep, filter_added. simpl. rewrite String.eqb_refl. simpl.
    split; [reflexivity|]. split.
    + rewrite length_app. simpl. rewrite Nat.add_1_r. reflexivity.
    + intros context2 v Hv Hne.
      unfold requireUser. rewrite Hv. simpl. rewrite Ep, filter_added. simpl.
      apply String.eqb_neq in Hne. rewrite String.eqb_sym, Hne. simpl.
      rewrite app_nil_r. reflexivity.
Qed.

Lemma created_row_ends_the_list_witness :
  exists row before,
    dataOf (fst (createPoem.handler
                   (createPoem.mkInput None None None None None None
                      "frog jumps in" None (Some true))
                   (signedIn alice) sampleRuntime sampleWorld))
    = DataPoem (Some row)
    /\ fst (listPoems.handler None (signedIn alice) sampleRuntime sampleWorld)
       = Ok (DataPoems before (List.length before))
    /\ fst (listPoems.handler None (signedIn alice) sampleRuntime
              (snd (createPoem.handler
                      (createPoem.mkInput None None None None None None
                         "frog jumps in" None (Some true))
                      (signedIn alice) sampleRuntime sampleWorld)))
       = Ok (DataPoems (before ++ [row]) (S (List.length before))).
Proof.
  pose (i := createPoem.mkInput None None None None None None
               "frog jumps in" None (Some true)).
  pose (r := createPoem.handler i (signedIn alice) sampleRuntime sampleWorld).
  destruct (proj2 (@created_row_ends_the_list_of_its_creator
                     sampleRuntime sampleRuntime sampleWorld (snd r)
                     (signedIn alice) alice (dataOf (fst r)) eq_refl)
              i eq_refl)
    as [row [before [Hd [Hb [Ha _]]]]].
  exists row, before. split; [exact Hd|]. split; [exact Hb|exact Ha].
Defined.

(** ** A created collection and the ownership resolver *)

(** X14. After a successful createCollection, the ownership resolver finds
    the collection created, and returns that very row, when asked by its
    creator; asked by any other user for the same id it throws NOT_FOUND. *)
Theorem created_collection_resolves_for_its_creator_only :
  forall (rt rt2 : Runtime) (w w' : World) (context : ActionAPIContext)
         (u : User.t) (i : createCollection.Input) (d : Data),
    localsUser context = Some u ->
    createCollection.handler i context rt w = (Ok d, w') ->
    exists row,
      d = DataCollection (Some row)
      /\ getOwnedCollection (PoemCollections.id row) (User.id u) rt2 w'
         = (Ok row, logged (DbSelect TPoemCollections) w')
      /\ (forall v,
             v <> User.id u ->
             getOwnedCollection (PoemCollections.id row) v rt2 w'
             = (Thrown collectionNotFound, logged (DbSelect TPoemCollections) w')).
Proof.
  intros rt rt2 w w' context u i d Hu H.
  apply createCollection_inv in H.
  destruct H as [u0 [Hu0 H]]. cbv zeta in H. destruct H as [Hd [Ec [_ Hnew]]].
  rewrite Hu in Hu0. inversion Hu0; subst u0.
  eexists. split; [exact Hd|]. simpl in Hnew |- *.
  assert (Hold : forall v,
             filter (fun c => (PoemCollections.id c =? uuidAt rt (uuidCalls w))
                              && (PoemCollections.userId c =? v))
               (collections w) = []).
  { intros v. apply filter_none. intros c Hin.
    destruct (PoemCollections.id c =? uuidAt rt (uuidCalls w)) eqn:E; [|reflexivity].
    exfalso. apply Hnew. apply String.eqb_eq in E. rewrite <- E.
    apply in_map. exact Hin. }
  split.
  - unfold getOwnedCollection, bind, selectCollections.
    rewrite Ec, filter_added, Hold. simpl. rewrite !String.eqb_refl. reflexivity.
  - intros v Hv.
    unfold getOwnedCollection, bind, selectCollections.
    rewrite Ec, filter_added, Hold. simpl. rewrite String.eqb_refl. simpl.
    apply not_eq_sym in Hv. apply String.eqb_neq in Hv. rewrite Hv. reflexivity.
Qed.

Lemma created_collection_resolves_witness :
  exists row,
    dataOf (fst (createCollection.action forgedCollectionBody (signedIn alice)
                   sampleRuntime sampleWorld))
    = DataCollection (Some row)
    /\ PoemCollections.id row = "uuid-3"
    /\ fst (getOwnedCollection "uuid-3" "bob" sampleRuntime
              (snd (createCollection.action forgedCollectionBody (signedIn alice)
                      sampleRuntime sampleWorld)))
       = Thrown collectionNotFound.
Proof.
  pose (i := createCollection.mkInput "Sea" None None None).
  pose (r := createCollection.handler i (signedIn alice) sampleRuntime sampleWorld).
  destruct (@created_collection_resolves_for_its_creator_only
              sampleRuntime sampleRuntime sampleWorld (snd r) (signedIn alice)
              alice i (dataOf (fst r)) eq_refl eq_refl)
    as [row [Hd [_ Hother]]].
  exists row. split; [exact Hd|].
  assert (Hid : PoemCollections.id row = "uuid-3").
  { change (dataOf (fst r))
      with (DataCollection
              (Some (PoemCollections.mk "uuid-3" "alice" "Sea" None None false
                       1003%Z 1003%Z))) in Hd.
    inversion Hd. reflexivity. }
  split; [exact Hid|].
  rewrite <- Hid.
  change (snd (createCollection.action forgedCollectionBody (signedIn alice)
                 sampleRuntime sampleWorld)) with (snd r).
  rewrite (Hother "bob"); [reflexivity | discriminate].
Defined.

(** ** A deleted poem is gone *)

Lemma deletePoem_missing (i : deletePoem.Input) (context : ActionAPIContext)
    (u : User.t) (rt : Runtime) (w : World) :
  localsUser context = Some u ->
  ~ ownsPoem w (User.id u) (deletePoem.id i) ->
  deletePoem.handler i context rt w
  = (Thrown poemNotFound, logged (DbDelete TPoems) w).
Proof.
  intros Hu Hno. unfold deletePoem.handler.
  rewrite gate_passed with (u := u) by exact Hu.
  unfold bind, deletePoems.
  pose proof (ownsPoem_filter w (User.id u) (deletePoem.id i)) as Hf.
  destruct (filter _ (poems w)) as [|x rest] eqn:F; simpl.
  - unfold withPoems, logged. simpl.
    rewrite filter_negb_all; [reflexivity|]. apply filter_nil_false. exact F.
  - exfalso. apply Hno. apply Hf. discriminate.
Qed.

Lemma updatePoem_missing (i : updatePoem.Input) (context : ActionAPIContext)
    (u : User.t) (rt : Runtime) (w : World) :
  localsUser context = Some u ->
  ~ ownsPoem w (User.id u) (updatePoem.id i) ->
  updatePoem.handler i context rt w
  = (Thrown poemNotFound, logged (DbSelect TPoems) w).
Proof.
  intros Hu Hno. unfold updatePoem.handler.
  rewrite gate_passed with (u := u) by exact Hu.
  unfold bind, selectPoems.
  pose proof (ownsPoem_filter w (User.id u) (updatePoem.id i)) as Hf.
  destruct (filter _ (poems w)) as [|x rest] eqn:F; [reflexivity|].
  exfalso. apply Hno. apply Hf. discriminate.
Qed.

(** X15. Once a signed-in user has called deletePoem for an id, whatever
    the outcome of that call, the user owns no poem with that id: calling
    deletePoem again throws NOT_FOUND and changes no table, updatePoem for
    that id throws NOT_FOUND as well, and the unfiltered listPoems of that
    user lists no poem with that id. *)
Theorem deleted_poem_is_gone :
  forall (rt rt2 : Runtime) (w : World) (context : ActionAPIContext) (u : User.t)
         (i : deletePoem.Input),
    localsUser context = Some u ->
    let w' := snd (deletePoem.handler i context rt w) in
    deletePoem.handler i context rt2 w'
    = (Thrown poemNotFound, logged (DbDelete TPoems) w')
    /\ (forall j,
           updatePoem.id j = deletePoem.id i ->
           updatePoem.handler j context rt2 w'
           = (Thrown poemNotFound, logged (DbSelect TPoems) w'))
    /\ (forall items total p,
           fst (listPoems.handler None context rt2 w') = Ok (DataPoems items total) ->
           In p items ->
           Poems.id p <> deletePoem.id i).
Proof.
  intros rt rt2 w context u i Hu w'.
  assert (Hgone : ~ ownsPoem w' (User.id u) (deletePoem.id i)).
  { intros [p [Hin [Hid Hown]]].
    destruct (@deletePoem_effect i context u rt w Hu) as [Ep _].
    fold w' in Ep. rewrite Ep in Hin. apply filter_In in Hin.
    destruct Hin as [_ Hkeep]. apply negb_true_iff in Hkeep.
    apply String.eqb_eq in Hid. apply String.eqb_eq in Hown.
    rewrite Hid, Hown in Hkeep. discriminate. }
  split; [|split].
  - apply deletePoem_missing with (u := u); assumption.
  - intros j Hj. apply updatePoem_missing with (u := u); [exact Hu|].
    rewrite Hj. exact Hgone.
  - intros items total p. unfold listPoems.handler.
    rewrite gate_passed with (u := u) by exact Hu.
    cbv zeta. unfold bind, selectPoems, and_. simpl.
    intros H Hin Hid. inversion H; subst items total.
    apply filter_In in Hin. destruct Hin as [Hin Hmine].
    rewrite andb_true_r in Hmine. apply String.eqb_eq in Hmine.
    apply Hgone. exists p. auto.
Qed.

Lemma deleted_poem_is_gone_witness :
  deletePoem.handler (deletePoem.mkInput "uuid-2") (signedIn alice) sampleRuntime
    (snd (deletePoem.handler (deletePoem.mkInput "uuid-2") (signedIn alice)
            sampleRuntime sampleWorld))
  = (Thrown poemNotFound,
     logged (DbDelete TPoems)
       (snd (deletePoem.handler (deletePoem.mkInput "uuid-2") (signedIn alice)
               sampleRuntime sampleWorld))).
Proof.
  apply (@deleted_poem_is_gone sampleRuntime sampleRuntime sampleWorld
           (signedIn alice) alice (deletePoem.mkInput "uuid-2") eq_refl).
Defined.

(** ** The stored row echoes the request body *)

Lemma optional_string_inv (v : JsValue) (o : option string) :
  z.optional z.string v = Some o -> v = textOrUndefined o.
Proof.
  destruct v; simpl; intros H; inversion H; reflexivity.
Qed.

Lemma optional_boolean_inv (v : JsValue) (o : option bool) :
  z.optional z.boolean v = Some o ->
  match o with Some b => v = JsBool b | None => v = JsUndefined end.
Proof.
  destruct v; simpl; intros H; inversion H; reflexivity.
Qed.

Lemma string_min_inv (n : nat) (v : JsValue) (s : string) :
  z.string_min n v = Some s -> v = JsString s.
Proof.
  destruct v; simpl; try discriminate.
  destruct (Nat.leb n (String.length s0)); intros H; inversion H; reflexivity.
Qed.

Lemma flagSent_orElse (v : JsValue) (o : option bool) :
  match o with Some b => v = JsBool b | None => v = JsUndefined end ->
  flagSent v (orElse o false).
Proof.
  destruct o as [b|]; simpl; intros H; [left | right; split]; auto.
Qed.

Ltac next_key E :=
  match goal with
  | |- context [match ?parse ?v with _ => _ end] =>
      destruct (parse v) eqn:E; [|discriminate]
  end.

(** What the schema of createCollection returned, against the body. *)
Lemma createCollection_input_inv (fields : list (string * JsValue))
    (i : createCollection.Input) :
  createCollection.input (JsObject fields) = Some i ->
  lookupField "name" fields = JsString (createCollection.name i)
  /\ lookupField "description" fields
     = textOrUndefined (createCollection.description i)
  /\ lookupField "icon" fields = textOrUndefined (createCollection.icon i)
  /\ flagSent (lookupField "isDefault" fields)
       (orElse (createCollection.isDefault i) false).
Proof.
  unfold createCollection.input, z.object.
  next_key E1. next_key E2. next_key E3. next_key E4.
  intros H. inversion H; subst i. simpl.
  apply string_min_inv in E1.
  apply optional_string_inv in E2. apply optional_string_inv in E3.
  apply optional_boolean_inv in E4. apply flagSent_orElse in E4.
  auto.
Qed.

(** What the schema of createPoem returned, against the body. *)
Lemma createPoem_input_inv (fields : list (string * JsValue))
    (i : createPoem.Input) :
  createPoem.input (JsObject fields) = Some i ->
  lookupField "collectionId" fields = textOrUndefined (createPoem.collectionId i)
  /\ lookupField "title" fields = textOrUndefined (createPoem.title i)
  /\ lookupField "form" fields = textOrUndefined (createPoem.form i)
  /\ lookupField "style" fields = textOrUndefined (createPoem.style i)
  /\ lookupField "language" fields = textOrUndefined (createPoem.language i)
  /\ lookupField "prompt" fields = textOrUndefined (createPoem.prompt i)
  /\ lookupField "body" fields = JsString (createPoem.body i)
  /\ lookupField "notes" fields = textOrUndefined (createPoem.notes i)
  /\ flagSent (lookupField "isFavorite" fields)
       (orElse (createPoem.isFavorite i) false).
Proof.
  unfold createPoem.input, z.object.
  next_key E1. next_key E2. next_key E3. next_key E4. next_key E5.
  next_key E6. next_key E7. next_key E8. next_key E9.
  intros H. inversion H; subst i. simpl.
  apply optional_string_inv in E1. apply optional_string_inv in E2.
  apply optional_string_inv in E3. apply optional_string_inv in E4.
  apply optional_string_inv in E5. apply optional_string_inv in E6.
  apply string_min_inv in E7. apply optional_string_inv in E8.
  apply optional_boolean_inv in E9. apply flagSent_orElse in E9.
  repeat split; assumption.
Qed.

(** X16. When createCollection or createPoem succeeds on a request body
    whose texts hold no NUL character, the row it returns and stores echoes
    that body key by key: each text column holds the string sent under its
    key, a nullable column is NULL exactly when the key was left out, and the
    flag is the boolean sent, or [false] when it was left out. *)
Theorem created_row_echoes_the_body :
  forall (fields : list (string * JsValue)) (context : ActionAPIContext)
         (rt : Runtime) (w w' : World) (d : Data),
    (cleanKeys collectionTextKeys fields = true ->
     createCollection.action (JsObject fields) context rt w = (Ok d, w') ->
     exists row,
       d = DataCollection (Some row)
       /\ In row (collections w')
       /\ lookupField "name" fields = JsString (PoemCollections.name row)
       /\ lookupField "description" fields
          = textOrUndefined (PoemCollections.description row)
       /\ lookupField "icon" fields = textOrUndefined (PoemCollections.icon row)
       /\ flagSent (lookupField "isDefault" fields) (PoemCollections.isDefault row))
    /\ (cleanKeys poemTextKeys fields = true ->
        createPoem.action (JsObject fields) context rt w = (Ok d, w') ->
        exists row,
          d = DataPoem (Some row)
          /\ In row (poems w')
          /\ lookupField "collectionId" fields
             = textOrUndefined (Poems.collectionId row)
          /\ lookupField "title" fields = textOrUndefined (Poems.title row)
          /\ lookupField "form" fields = textOrUndefined (Poems.form row)
          /\ lookupField "style" fields = textOrUndefined (Poems.style row)
          /\ lookupField "language" fields = textOrUndefined (Poems.language row)
          /\ lookupField "prompt" fields = textOrUndefined (Poems.prompt row)
          /\ lookupField "body" fields = JsString (Poems.body row)
          /\ lookupField "notes" fields = textOrUndefined (Poems.notes row)
          /\ flagSent (lookupField "isFavorite" fields) (Poems.isFavorite row)).
Proof.
  intros fields context rt w w' d. split; intros _.
  - unfold createCollection.action, defineAction.
    destruct (createCollection.input (JsObject fields)) as [i|] eqn:P;
      [|discriminate].
    intros H. apply createCollection_inv in H.
    destruct H as [u [_ H]]. cbv zeta in H. destruct H as [Hd [Ec _]].
    apply createCollection_input_inv in P.
    eexists. split; [exact Hd|]. rewrite Ec. simpl.
    split; [apply in_or_app; right; left; reflexivity | exact P].
  - unfold createPoem.action, defineAction.
    destruct (createPoem.input (JsObject fields)) as [i|] eqn:P; [|discriminate].
    intros H. apply createPoem_inv in H.
    destruct H as [u [_ H]]. cbv zeta in H. destruct H as [Hd [Ep _]].
    apply createPoem_input_inv in P.
    eexists. split; [exact Hd|]. rewrite Ep. simpl.
    split; [apply in_or_app; right; left; reflexivity | exact P].
Qed.

Lemma created_row_echoes_witness :
  exists row,
    dataOf (fst (createPoem.action forgedPoemBody (signedIn alice)
                   sampleRuntime sampleWorld))
    = DataPoem (Some row)
    /\ Poems.title row = None
    /\ Poems.body row = "frog jumps in"
    /\ Poems.isFavorite row = false.
Proof.
  pose (r := createPoem.action forgedPoemBody (signedIn alice)
               sampleRuntime sampleWorld).
  destruct (proj2 (created_row_echoes_the_body
                     [("id", JsString "uuid-2"); ("userId", JsString "bob");
                      ("body", JsString "frog jumps in")]
                     (signedIn alice) sampleRuntime sampleWorld (snd r)
                     (dataOf (fst r)))
              eq_refl eq_refl)
    as [row [Hd [_ [_ [Ht [_ [_ [_ [_ [Hb [_ Hf]]]]]]]]]]].
  exists row. split; [exact Hd|]. simpl in Ht, Hb.
  split; [|split].
  - destruct (Poems.title row); [discriminate Ht | reflexivity].
  - inversion Hb. reflexivity.
  - destruct Hf as [Hf|[_ Hf]]; [discriminate Hf | exact Hf].
Defined.

(** ** The statements an operation issues *)

Lemma onlyReads_silent {A} (m : Action A) :
  (forall rt w, trace (snd (m rt w)) = trace w) -> onlyReads m.
Proof.
  intros H rt w. exists []. rewrite H, app_nil_r. split; reflexivity.
Qed.

Lemma onlyReads_bind {A B} (m : Action A) (k : A -> Action B) :
  onlyReads m -> (forall a, onlyReads (k a)) -> onlyReads (bind m k).
Proof.
  intros Hm Hk rt w. unfold bind.
  destruct (Hm rt w) as [r1 [E1 S1]].
  destruct (m rt w) as [[a|e] w1]; simpl in E1.
  - destruct (Hk a rt w1) as [r2 [E2 S2]].
    exists (r1 ++ r2). rewrite E2, E1, app_assoc. split; [reflexivity|].
    rewrite forallb_app, S1, S2. reflexivity.
  - exists r1. split; assumption.
Qed.

Lemma readsThenWrite_bind {A B} (m : Action A) (k : A -> Action B) :
  onlyReads m -> (forall a, readsThenWrite (k a)) -> readsThenWrite (bind m k).
Proof.
  intros Hm Hk rt w. unfold bind.
  destruct (Hm rt w) as [r1 [E1 S1]].
  destruct (m rt w) as [[a|e] w1]; simpl in E1.
  - destruct (Hk a rt w1) as [r2 [ws [E2 [S2 L]]]].
    exists (r1 ++ r2), ws. rewrite E2, E1, !app_assoc.
    split; [reflexivity|]. split; [|exact L].
    rewrite forallb_app, S1, S2. reflexivity.
  - exists r1, []. rewrite app_nil_r. split; [exact E1|]. split; [exact S1|].
    simpl. apply Nat.le_0_l.
Qed.

Lemma onlyReads_ret {A} (a : A) : onlyReads (ret a).
Proof. apply onlyReads_silent. reflexivity. Qed.

Lemma onlyReads_throw {A} (e : Failure) : onlyReads (@throw A e).
Proof. apply onlyReads_silent. reflexivity. Qed.

Lemma onlyReads_requireUser (context : ActionAPIContext) :
  onlyReads (requireUser context).
Proof.
  apply onlyReads_silent. intros rt w. unfold requireUser.
  destruct (localsUser context); reflexivity.
Qed.

Lemma onlyReads_newDate : onlyReads newDate.
Proof. apply onlyReads_silent. reflexivity. Qed.

Lemma onlyReads_randomUUID : onlyReads randomUUID.
Proof. apply onlyReads_silent. reflexivity. Qed.

Lemma onlyReads_selectCollections (p : PoemCollections.row -> bool) :
  onlyReads (selectCollections p).
Proof. intros rt w. exists [DbSelect TPoemCollections]. split; reflexivity. Qed.

Lemma onlyReads_selectPoems (p : Poems.row -> bool) : onlyReads (selectPoems p).
Proof. intros rt w. exists [DbSelect TPoems]. split; reflexivity. Qed.

Lemma onlyReads_getOwnedCollection (c u : string) :
  onlyReads (getOwnedCollection c u).
Proof.
  unfold getOwnedCollection. apply onlyReads_bind.
  - apply onlyReads_selectCollections.
  - intros [|col rest]; [apply onlyReads_throw | apply onlyReads_ret].
Qed.

Create HintDb reads.
#[local] Hint Resolve onlyReads_ret onlyReads_throw onlyReads_requireUser
  onlyReads_newDate onlyReads_randomUUID onlyReads_selectCollections
  onlyReads_selectPoems onlyReads_getOwnedCollection : reads.

Ltac reads :=
  first
    [ solve [auto with reads]
    | apply onlyReads_bind; [reads | intros ?; reads]
    | match goal with
      | |- onlyReads (match ?x with _ => _ end) => destruct x; reads
      | |- onlyReads (if ?b then _ else _) => destruct b; reads
      end ].

Ltac read_over := apply readsThenWrite_bind; [reads | intros ?].

(** One statement, then a pure end. *)
Lemma one_write {A B} (m : Action A) (k : A -> Action B) (op : DbOp) :
  (forall rt w, trace (snd (m rt w)) = trace w ++ [op]) ->
  (forall a rt w, trace (snd (k a rt w)) = trace w) ->
  readsThenWrite (bind m k).
Proof.
  intros Hm Hk rt w. exists [], [op]. unfold bind.
  specialize (Hm rt w).
  destruct (m rt w) as [[a|e] w1]; simpl in Hm.
  - simpl. rewrite Hk, Hm. split; [reflexivity|]. split; [reflexivity|]. apply le_n.
  - simpl. rewrite Hm. split; [reflexivity|]. split; [reflexivity|]. apply le_n.
Qed.

Lemma createCollection_statements (i : createCollection.Input)
    (context : ActionAPIContext) :
  readsThenWrite (createCollection.handler i context).
Proof.
  unfold createCollection.handler. do 3 read_over.
  apply one_write with (op := DbInsert TPoemCollections).
  - intros rt w. unfold insertCollection.
    destruct (existsb _ (collections w)); reflexivity.
  - reflexivity.
Qed.

Lemma updateCollection_statements (i : updateCollection.Input)
    (context : ActionAPIContext) :
  readsThenWrite (updateCollection.handler i context).
Proof.
  unfold updateCollection.handler. do 3 read_over.
  apply one_write with (op := DbUpdate TPoemCollections); reflexivity.
Qed.

Lemma createPoem_statements (i : createPoem.Input) (context : ActionAPIContext) :
  readsThenWrite (createPoem.handler i context).
Proof.
  unfold createPoem.handler. do 4 read_over.
  apply one_write with (op := DbInsert TPoems).
  - intros rt w. unfold insertPoem.
    destruct (existsb _ (poems w)); [reflexivity|].
    destruct (referenceHolds _ _); reflexivity.
  - reflexivity.
Qed.

Lemma updatePoem_statements (i : updatePoem.Input) (context : ActionAPIContext) :
  readsThenWrite (updatePoem.handler i context).
Proof.
  unfold updatePoem.handler. do 2 read_over.
  match goal with
  | |- readsThenWrite (match ?found with _ => _ end) =>
      destruct found as [|existing rest]
  end.
  - intros rt w. exists [], []. rewrite app_nil_r. simpl.
    split; [reflexivity|]. split; [reflexivity|]. apply le_0_n.
  - do 2 read_over.
    apply one_write with (op := DbUpdate TPoems); reflexivity.
Qed.

Lemma deletePoem_statements (i : deletePoem.Input) (context : ActionAPIContext) :
  readsThenWrite (deletePoem.handler i context).
Proof.
  unfold deletePoem.handler. read_over.
  apply one_write with (op := DbDelete TPoems).
  - reflexivity.
  - intros n rt w. destruct (Nat.eqb n 0); reflexivity.
Qed.

Lemma listCollections_statements (i : listCollections.Input)
    (context : ActionAPIContext) :
  onlyReads (listCollections.handler i context).
Proof. unfold listCollections.handler. reads. Qed.

Lemma listPoems_statements (i : listPoems.Input) (context : ActionAPIContext) :
  onlyReads (listPoems.handler i context).
Proof. unfold listPoems.handler. cbv zeta. reads. Qed.

(** X17. Whatever the operation, the body and the caller, the statements
    sent to the database during the call are queries followed by at most
    one other statement: no operation writes twice, and none reads after
    it has written. listCollections and listPoems send queries only. *)
Theorem operation_reads_then_writes_at_most_once :
  forall (op : Operation) (body : JsValue) (context : ActionAPIContext)
         (rt : Runtime) (w : World),
    exists reads writes,
      trace (snd (server op body context rt w)) = trace w ++ reads ++ writes
      /\ forallb isSelect reads = true
      /\ List.length writes <= 1
      /\ match op with
         | ListCollections | ListPoems => writes = []
         | _ => True
         end.
Proof.
  intros op body context rt w.
  assert (Hnone : exists reads writes,
             trace w = trace w ++ reads ++ writes
             /\ forallb isSelect reads = true
             /\ List.length writes <= 1
             /\ writes = []).
  { exists [], []. rewrite app_nil_r. repeat split. apply le_0_n. }
  destruct op; unfold_action; unfold defineAction;
    match goal with
    | |- context [match ?parsed with _ => _ end] => destruct parsed as [i|]
    end;
    try (destruct Hnone as [rs [ws [E [S [L N]]]]]; exists rs, ws;
         repeat split; solve [assumption | exact I]).
  - destruct (createCollection_statements i context rt w) as [rs [ws [E [S L]]]].
    exists rs, ws. repeat split; assumption.
  - destruct (updateCollection_statements i context rt w) as [rs [ws [E [S L]]]].
    exists rs, ws. repeat split; assumption.
  - destruct (listCollections_statements i context rt w) as [rs [E S]].
    exists rs, []. rewrite app_nil_r. repeat split; try assumption. apply le_0_n.
  - destruct (createPoem_statements i context rt w) as [rs [ws [E [S L]]]].
    exists rs, ws. repeat split; assumption.
  - destruct (updatePoem_statements i context rt w) as [rs [ws [E [S L]]]].
    exists rs, ws. repeat split; assumption.
  - destruct (deletePoem_statements i context rt w) as [rs [ws [E [S L]]]].
    exists rs, ws. repeat split; assumption.
  - destruct (listPoems_statements i context rt w) as [rs [E S]].
    exists rs, []. rewrite app_nil_r. repeat split; try assumption. apply le_0_n.
Qed.
